(** * Page-object generator: locator resolution, naming, deduplication,
      code synthesis and metadata diff

    A shallow embedding of [src/page-object-generator/types.ts],
    [src/page-object-generator/generator.ts] and
    [src/page-object-generator/diff.ts], followed by the properties of the
    specification that concern them.

    Conventions of the embedding.
    - A JavaScript string is a [string]: a sequence of code units, here the
      code units 0..255.  [String.length] is the JavaScript [length].
    - A value of type [string | null] is an [option string]; JavaScript
      truthiness of such a value is [truthy]: neither [null] nor empty.
    - A JavaScript [Map] with string keys is an insertion-ordered association
      list with distinct keys ([JsMap]).
    - A loop that pushes onto arrays is a recursive function threading the
      arrays as state; [push] appends at the end. *)

From Stdlib Require Import List String Ascii Bool Arith Lia ZArith.
From Stdlib Require Import DecimalString DecimalNat Permutation.
Import ListNotations.

Open Scope list_scope.
Open Scope string_scope.

(* ================================================================= *)
(** ** JavaScript string primitives used by the generator *)

Module Js.

(** The line feed, the single quote, the backslash and the double quote. *)
Definition LF : ascii := "010"%char.
Definition QUOTE : ascii := "'"%char.
Definition BACKSLASH : ascii := "\"%char.
Definition DQUOTE : ascii := "034"%char.
Definition nl : string := String LF "".
Definition dq : string := String DQUOTE "".

(** Truthiness of a [string | null]. *)
Definition truthy (o : option string) : bool :=
  match o with
  | None => false
  | Some s => negb (s =? "")
  end.

Definition nonEmpty (s : string) : bool := negb (s =? "").

(** White space and line terminators of ECMAScript among the code units
    0..255: TAB, LF, VT, FF, CR, SP and NBSP.  This is what [\s] matches and
    what [trim] strips. *)
Definition isWhiteSpace (c : ascii) : bool :=
  let n := nat_of_ascii c in
  (((9 <=? n) && (n <=? 13)) || (n =? 32) || (n =? 160))%nat.

(** [[a-zA-Z0-9]] *)
Definition isAlnum (c : ascii) : bool :=
  let n := nat_of_ascii c in
  (((48 <=? n) && (n <=? 57)) || ((65 <=? n) && (n <=? 90))
   || ((97 <=? n) && (n <=? 122)))%nat.

(** [toLowerCase] and [toUpperCase] on one code unit.  The generator applies
    them only to words made of [[a-zA-Z0-9]], where the ASCII mapping is the
    JavaScript one. *)
Definition lowerChar (c : ascii) : ascii :=
  let n := nat_of_ascii c in
  if ((65 <=? n) && (n <=? 90))%nat then ascii_of_nat (n + 32) else c.

Definition upperChar (c : ascii) : ascii :=
  let n := nat_of_ascii c in
  if ((97 <=? n) && (n <=? 122))%nat then ascii_of_nat (n - 32) else c.

Fixpoint mapChars (f : ascii -> ascii) (s : string) : string :=
  match s with
  | "" => ""
  | String c r => String (f c) (mapChars f r)
  end.

Definition toLowerCase : string -> string := mapChars lowerChar.
Definition toUpperCase : string -> string := mapChars upperChar.

(** [s.charAt(0)] and [s.slice(1)]. *)
Definition charAt0 (s : string) : string :=
  match s with
  | "" => ""
  | String c _ => String c ""
  end.

Definition slice1 (s : string) : string :=
  match s with
  | "" => ""
  | String _ r => r
  end.

(** [s.replace(/c/g, by)] for a one-character pattern. *)
Fixpoint replaceAllChar (c : ascii) (by_ : string) (s : string) : string :=
  match s with
  | "" => ""
  | String x r =>
      if Ascii.eqb x c then by_ ++ replaceAllChar c by_ r
      else String x (replaceAllChar c by_ r)
  end.

(** [s.replace(/[^a-zA-Z0-9\s]/g, ' ')] *)
Definition replaceNonWord : string -> string :=
  mapChars (fun c => if isAlnum c || isWhiteSpace c then c else " "%char).

Fixpoint trimStart (s : string) : string :=
  match s with
  | "" => ""
  | String c r => if isWhiteSpace c then trimStart r else s
  end.

Fixpoint trimEnd (s : string) : string :=
  match s with
  | "" => ""
  | String c r =>
      let r' := trimEnd r in
      if isWhiteSpace c && (r' =? "") then "" else String c r'
  end.

Definition trim (s : string) : string := trimEnd (trimStart s).

(** [s.split(/\s+/)]: the pieces between maximal runs of white space.  A
    leading or trailing run leaves an empty first or last piece, and the
    empty string splits into one empty piece. *)
Fixpoint splitWs (cur : string) (inWs : bool) (s : string) : list string :=
  match s with
  | "" => [cur]
  | String c r =>
      if isWhiteSpace c then
        if inWs then splitWs "" true r else cur :: splitWs "" true r
      else splitWs (cur ++ String c "") false r
  end.

Definition splitWhitespace (s : string) : list string := splitWs "" false s.

(** [s.split(' ')[0]]: the characters before the first space. *)
Fixpoint splitSpaceFirst (s : string) : string :=
  match s with
  | "" => ""
  | String c r => if Ascii.eqb c " "%char then "" else String c (splitSpaceFirst r)
  end.

(** [s.replace(/suffix$/, '')] for a literal suffix. *)
Fixpoint endsWith (suffix s : string) : bool :=
  (s =? suffix) ||
  match s with
  | "" => false
  | String _ r => endsWith suffix r
  end.

Definition stripSuffix (suffix s : string) : string :=
  if endsWith suffix s
  then substring 0 (String.length s - String.length suffix) s
  else s.

(** [`${n}`] for a counter: its decimal numeral. *)
Definition numberToString (n : nat) : string :=
  NilEmpty.string_of_uint (Nat.to_uint n).

Definition join (l : list string) : string := String.concat "" l.

End Js.

(* ================================================================= *)
(** ** JavaScript [Map] with string keys *)

Module JsMap.

Section WithValue.
Variable V : Type.

(** Entries in insertion order; the keys are distinct. *)
Definition t : Type := list (string * V).

Definition empty : t := [].

Fixpoint get (m : t) (k : string) : option V :=
  match m with
  | [] => None
  | (k', v) :: m' => if k' =? k then Some v else get m' k
  end.

Definition has (m : t) (k : string) : bool :=
  match get m k with
  | Some _ => true
  | None => false
  end.

(** [m.set(k, v)]: a present key keeps its position and takes the new
    value, an absent key is appended. *)
Fixpoint set (m : t) (k : string) (v : V) : t :=
  match m with
  | [] => [(k, v)]
  | (k', v') :: m' =>
      if k' =? k then (k, v) :: m' else (k', v') :: set m' k v
  end.

(** [new Map(entries)] *)
Definition ofEntries (es : list (string * V)) : t :=
  fold_left (fun m e => set m (fst e) (snd e)) es empty.

Definition keys (m : t) : list string := map fst m.
Definition values (m : t) : list V := map snd m.
Definition size (m : t) : nat := List.length m.
End WithValue.

Arguments empty {V}.
Arguments get {V} m k.
Arguments has {V} m k.
Arguments set {V} m k v.
Arguments ofEntries {V} es.
Arguments keys {V} m.
Arguments values {V} m.
Arguments size {V} m.

End JsMap.

(* ================================================================= *)
(** ** types.ts *)

Record ElementInfo := {
  tagName : string;
  role : option string;
  label : option string;
  text : option string;
  placeholder : option string;
  nameAttr : option string;      (* [name] *)
  idAttr : option string;        (* [id] *)
  className : option string;
  typeAttr : option string;      (* [type] *)
  ariaLabel : option string;
  testId : option string
}.

Inductive LocatorType :=
| getByRole | getByLabel | getByText | getByPlaceholder | getByTestId | locator.

Inductive ElementType :=
| button | input | link | select | checkbox | radio | textarea | heading | other.

Record AnalyzedElement := {
  name : string;
  locatorCode : string;
  locatorType : LocatorType;
  elementType : ElementType;
  originalInfo : ElementInfo
}.

Record AnalyzedPage := {
  buttons : list AnalyzedElement;
  inputs : list AnalyzedElement;
  links : list AnalyzedElement;
  selects : list AnalyzedElement;
  checkboxes : list AnalyzedElement;
  radios : list AnalyzedElement;
  textareas : list AnalyzedElement;
  headings : list AnalyzedElement;
  others : list AnalyzedElement
}.

Record NamingRules := {
  maxTextLength : Z;
  suffixes : ElementType -> string;
  useCamelCase : bool
}.

Record IgnoreRules := {
  ignoreClasses : list string;
  ignoreIds : list string;
  ignoreRoles : list string
}.

Record TemplateOptions := {
  generateHelperMethodsFlag : bool;   (* [generateHelperMethods] *)
  includeGotoMethod : bool
}.

Record GeneratorConfig := {
  locatorPriority : list LocatorType;
  namingRules : NamingRules;
  ignoreRules : IgnoreRules;
  templateOptions : TemplateOptions
}.

(** [Partial<GeneratorConfig>]: each top-level field may be missing. *)
Record PartialGeneratorConfig := {
  userLocatorPriority : option (list LocatorType);
  userNamingRules : option NamingRules;
  userIgnoreRules : option IgnoreRules;
  userTemplateOptions : option TemplateOptions
}.

Record PageObjectMetadata := {
  url : string;
  pageName : string;
  generatedAt : string;
  elementCount : nat;
  elements : list AnalyzedElement;
  screenshotPath : option string;
  config : option GeneratorConfig
}.

Record ModifiedPair := {
  old : AnalyzedElement;
  new : AnalyzedElement
}.

Record DiffResult := {
  added : list AnalyzedElement;
  removed : list AnalyzedElement;
  modified : list ModifiedPair;
  unchanged : list AnalyzedElement
}.

Definition elementTypeString (t : ElementType) : string :=
  match t with
  | button => "button" | input => "input" | link => "link"
  | select => "select" | checkbox => "checkbox" | radio => "radio"
  | textarea => "textarea" | heading => "heading" | other => "other"
  end.

Definition DEFAULT_suffixes (t : ElementType) : string :=
  match t with
  | button => "Button" | input => "Input" | link => "Link"
  | select => "Select" | checkbox => "Checkbox" | radio => "Radio"
  | textarea => "Textarea" | heading => "Heading" | other => "Element"
  end.

Definition DEFAULT_CONFIG : GeneratorConfig := {|
  locatorPriority :=
    [getByRole; getByLabel; getByPlaceholder; getByTestId; getByText; locator];
  namingRules := {|
    maxTextLength := 30;
    suffixes := DEFAULT_suffixes;
    useCamelCase := true |};
  ignoreRules := {|
    ignoreClasses := []; ignoreIds := []; ignoreRoles := [] |};
  templateOptions := {|
    generateHelperMethodsFlag := true; includeGotoMethod := true |}
|}.

(* ================================================================= *)
(** ** generator.ts *)

Import Js.

(** [mergeConfig]: user fields replace the defaults.  An array is truthy
    even when it is empty, so [userConfig.locatorPriority || DEFAULT] keeps a
    user-supplied empty list.  The nested fields of [Partial<GeneratorConfig>]
    are complete objects, so the spreads yield the user's object. *)
Definition mergeConfig (userConfig : option PartialGeneratorConfig)
  : GeneratorConfig :=
  match userConfig with
  | None => DEFAULT_CONFIG
  | Some u => {|
      locatorPriority :=
        match userLocatorPriority u with
        | Some l => l
        | None => locatorPriority DEFAULT_CONFIG
        end;
      namingRules :=
        match userNamingRules u with
        | Some r => r
        | None => namingRules DEFAULT_CONFIG
        end;
      ignoreRules :=
        match userIgnoreRules u with
        | Some r => r
        | None => ignoreRules DEFAULT_CONFIG
        end;
      templateOptions :=
        match userTemplateOptions u with
        | Some r => r
        | None => templateOptions DEFAULT_CONFIG
        end |}
  end.

Definition flattenElements (elements : AnalyzedPage) : list AnalyzedElement :=
  (buttons elements ++ inputs elements ++ links elements ++ selects elements
   ++ checkboxes elements ++ radios elements ++ textareas elements
   ++ headings elements ++ others elements)%list.

Definition escapeString (str : string) : string :=
  trim (replaceAllChar LF " " (replaceAllChar QUOTE "\'" str)).

(** The value a [string | null] holds when it is truthy. *)
Definition truthyValue (o : option string) : option string :=
  match o with
  | Some s => if nonEmpty s then Some s else None
  | None => None
  end.

Record LocatorResult := {
  resultCode : string;           (* [locatorCode] *)
  resultType : LocatorType       (* [locatorType] *)
}.

Definition roleMap (elementType : ElementType) : string :=
  match elementType with
  | button => "button"
  | link => "link"
  | input => "textbox"
  | select => "combobox"
  | checkbox => "checkbox"
  | radio => "radio"
  | textarea => "textbox"
  | heading => "heading"
  | other => ""
  end.

(** [['button', 'link', 'heading'].includes(elementType)] *)
Definition namedByText (elementType : ElementType) : bool :=
  match elementType with
  | button | link | heading => true
  | _ => false
  end.

Definition roleLocator (role name_ : string) : LocatorResult :=
  {| resultCode :=
       "getByRole('" ++ role ++ "', { name: '" ++ escapeString name_ ++ "' })";
     resultType := getByRole |}.

Definition tryGenerateLocator (info : ElementInfo) (elementType : ElementType)
    (role : string) (locatorType : LocatorType) : option LocatorResult :=
  match locatorType with
  | getByRole =>
      match (if nonEmpty role then truthyValue (ariaLabel info) else None) with
      | Some aria => Some (roleLocator role aria)
      | None =>
          match (if nonEmpty role then truthyValue (text info) else None) with
          | Some txt =>
              if namedByText elementType
              then Some (roleLocator role (substring 0 50 txt))
              else None
          | None => None
          end
      end
  | getByLabel =>
      match truthyValue (label info) with
      | Some l =>
          Some {| resultCode := "getByLabel('" ++ escapeString l ++ "')";
                  resultType := getByLabel |}
      | None => None
      end
  | getByPlaceholder =>
      match truthyValue (placeholder info) with
      | Some p =>
          Some {| resultCode := "getByPlaceholder('" ++ escapeString p ++ "')";
                  resultType := getByPlaceholder |}
      | None => None
      end
  | getByTestId =>
      match truthyValue (testId info) with
      | Some t =>
          Some {| resultCode := "getByTestId('" ++ escapeString t ++ "')";
                  resultType := getByTestId |}
      | None => None
      end
  | getByText =>
      match truthyValue (text info) with
      | Some t =>
          if (String.length t <=? 50)%nat
          then Some {| resultCode := "getByText('" ++ escapeString t ++ "')";
                       resultType := getByText |}
          else None
      | None => None
      end
  | locator =>
      match truthyValue (idAttr info) with
      | Some i =>
          Some {| resultCode := "locator('#" ++ escapeString i ++ "')";
                  resultType := locator |}
      | None =>
          match truthyValue (nameAttr info) with
          | Some n =>
              Some {| resultCode :=
                        "locator('[name=" ++ dq ++ escapeString n ++ dq ++ "]')";
                      resultType := locator |}
          | None =>
              match truthyValue (className info) with
              | Some c =>
                  Some {| resultCode :=
                            "locator('." ++ escapeString (splitSpaceFirst c)
                            ++ "')";
                          resultType := locator |}
              | None => None
              end
          end
      end
  end.

(** The bare tag-name selector returned after the loop. *)
Definition tagFallback (info : ElementInfo) : LocatorResult :=
  {| resultCode := "locator('" ++ tagName info ++ "')";
     resultType := locator |}.

(** The [for ... of this.config.locatorPriority] loop of [generateLocator]:
    the first strategy that yields a result returns it. *)
Fixpoint firstLocator (info : ElementInfo) (elementType : ElementType)
    (role : string) (priority : list LocatorType) : option LocatorResult :=
  match priority with
  | [] => None
  | locatorType :: rest =>
      match tryGenerateLocator info elementType role locatorType with
      | Some result => Some result
      | None => firstLocator info elementType role rest
      end
  end.

Definition generateLocator (cfg : GeneratorConfig) (info : ElementInfo)
    (elementType : ElementType) : LocatorResult :=
  let role := roleMap elementType in
  match firstLocator info elementType role (locatorPriority cfg) with
  | Some result => result
  | None => tagFallback info
  end.

(** The [map] callback of [toCamelCase], applied with its index. *)
Fixpoint camelWords (first : bool) (words : list string) : list string :=
  match words with
  | [] => []
  | word :: rest =>
      let lower := toLowerCase word in
      (if first then lower
       else toUpperCase (charAt0 lower) ++ slice1 lower)
      :: camelWords false rest
  end.

Definition toCamelCase (str : string) : string :=
  join (camelWords true
          (filter nonEmpty (splitWhitespace (replaceNonWord str)))).

Definition toPascalCase (str : string) : string :=
  let camel := toCamelCase str in
  toUpperCase (charAt0 camel) ++ slice1 camel.

Definition generateElementName (cfg : GeneratorConfig) (info : ElementInfo)
    (elementType : ElementType) : string :=
  let maxLength := maxTextLength (namingRules cfg) in
  let baseName :=
    match truthyValue (ariaLabel info) with
    | Some s => s
    | None =>
    match truthyValue (label info) with
    | Some s => s
    | None =>
    match truthyValue (placeholder info) with
    | Some s => s
    | None =>
    match
      match truthyValue (text info) with
      | Some s => if (Z.of_nat (String.length s) <=? maxLength)%Z
                  then Some s else None
      | None => None
      end
    with
    | Some s => s
    | None =>
    match truthyValue (nameAttr info) with
    | Some s => s
    | None =>
    match truthyValue (idAttr info) with
    | Some s => s
    | None =>
    match truthyValue (testId info) with
    | Some s => s
    | None => "unnamed" ++ elementTypeString elementType
    end end end end end end end in
  let processedName :=
    if useCamelCase (namingRules cfg) then toCamelCase baseName else baseName in
  let suffix :=
    let s := suffixes (namingRules cfg) elementType in
    if nonEmpty s then s else "Element" in
  processedName ++ suffix.

Definition createAnalyzedElement (cfg : GeneratorConfig) (info : ElementInfo)
    (elementType : ElementType) : option AnalyzedElement :=
  let r := generateLocator cfg info elementType in
  let name_ := generateElementName cfg info elementType in
  if negb (nonEmpty name_) || negb (nonEmpty (resultCode r)) then None
  else Some {| name := name_;
               locatorCode := resultCode r;
               locatorType := resultType r;
               elementType := elementType;
               originalInfo := info |}.

(** *** Deduplication *)

Definition withName (element : AnalyzedElement) (newName : string)
  : AnalyzedElement :=
  {| name := newName;
     locatorCode := locatorCode element;
     locatorType := locatorType element;
     elementType := elementType element;
     originalInfo := originalInfo element |}.

(** The [while (seen.has(newName))] loop, started at [counter]: the first
    counter from there on whose candidate is not a key of [seen].  [fuel]
    bounds the number of probes; [None] means it ran out. *)
Fixpoint probe (fuel : nat) (seen : JsMap.t AnalyzedElement)
    (base : string) (counter : nat) : option nat :=
  match fuel with
  | O => None
  | S fuel' =>
      if JsMap.has seen (base ++ numberToString counter)
      then probe fuel' seen base (S counter)
      else Some counter
  end.

(** One iteration of the [for] loop of [deduplicateElements].  The probe is
    given one more step than [seen] has keys. *)
Definition dedupStep (seen : JsMap.t AnalyzedElement)
    (element : AnalyzedElement) : option (JsMap.t AnalyzedElement) :=
  if negb (JsMap.has seen (name element))
  then Some (JsMap.set seen (name element) element)
  else
    match probe (S (JsMap.size seen)) seen (name element) 2 with
    | Some counter =>
        let newName := name element ++ numberToString counter in
        Some (JsMap.set seen newName (withName element newName))
    | None => None
    end.

Fixpoint dedupLoop (seen : JsMap.t AnalyzedElement)
    (elements : list AnalyzedElement) : option (JsMap.t AnalyzedElement) :=
  match elements with
  | [] => Some seen
  | element :: rest =>
      match dedupStep seen element with
      | Some seen' => dedupLoop seen' rest
      | None => None
      end
  end.

Definition deduplicateElements (elements : list AnalyzedElement)
  : option (list AnalyzedElement) :=
  match dedupLoop JsMap.empty elements with
  | Some seen => Some (JsMap.values seen)
  | None => None
  end.

(** *** Template *)

Definition declarationLine (element : AnalyzedElement) : string :=
  "  readonly " ++ name element ++ ": Locator;" ++ nl.

Definition wiringLine (element : AnalyzedElement) : string :=
  "    this." ++ name element ++ " = page." ++ locatorCode element ++ ";" ++ nl.

Definition declarationBlock (elements : list AnalyzedElement) : string :=
  join (map declarationLine elements).

Definition constructorBlock (elements : list AnalyzedElement) : string :=
  nl ++ "  constructor(page: Page) {" ++ nl
  ++ "    this.page = page;" ++ nl
  ++ join (map wiringLine elements)
  ++ "  }" ++ nl.

Definition templateHeader (className : string) : string :=
  "import { Page, Locator } from '@playwright/test';" ++ nl
  ++ nl
  ++ "export class " ++ className ++ " {" ++ nl
  ++ "  readonly page: Page;" ++ nl.

Definition gotoMethod : string :=
  nl ++ "  async goto(url: string): Promise<void> {" ++ nl
  ++ "    await this.page.goto(url);" ++ nl
  ++ "  }" ++ nl.

Definition isType (t : ElementType) (e : AnalyzedElement) : bool :=
  match t, elementType e with
  | button, button | input, input | link, link | select, select
  | checkbox, checkbox | radio, radio | textarea, textarea
  | heading, heading | other, other => true
  | _, _ => false
  end.

Definition clickMethod (methodName field : string) : string :=
  nl ++ "  async " ++ methodName ++ "(): Promise<void> {" ++ nl
  ++ "    await this." ++ field ++ ".click();" ++ nl
  ++ "  }" ++ nl.

Definition buttonMethod (e : AnalyzedElement) : string :=
  clickMethod ("click" ++ toPascalCase (stripSuffix "Button" (name e))) (name e).

(** [name.replace(/(Input|Textarea)$/, '')]: a name ends with at most one of
    the two alternatives. *)
Definition stripInputSuffix (s : string) : string :=
  if endsWith "Input" s then stripSuffix "Input" s
  else stripSuffix "Textarea" s.

Definition inputMethod (e : AnalyzedElement) : string :=
  nl ++ "  async " ++ "fill" ++ toPascalCase (stripInputSuffix (name e))
  ++ "(value: string): Promise<void> {" ++ nl
  ++ "    await this." ++ name e ++ ".fill(value);" ++ nl
  ++ "  }" ++ nl.

Definition selectMethod (e : AnalyzedElement) : string :=
  nl ++ "  async " ++ "select" ++ toPascalCase (stripSuffix "Select" (name e))
  ++ "(value: string): Promise<void> {" ++ nl
  ++ "    await this." ++ name e ++ ".selectOption(value);" ++ nl
  ++ "  }" ++ nl.

Definition checkboxMethods (e : AnalyzedElement) : string :=
  let baseName := toPascalCase (stripSuffix "Checkbox" (name e)) in
  nl ++ "  async check" ++ baseName ++ "(): Promise<void> {" ++ nl
  ++ "    await this." ++ name e ++ ".check();" ++ nl
  ++ "  }" ++ nl
  ++ nl
  ++ "  async uncheck" ++ baseName ++ "(): Promise<void> {" ++ nl
  ++ "    await this." ++ name e ++ ".uncheck();" ++ nl
  ++ "  }" ++ nl.

Definition linkMethod (e : AnalyzedElement) : string :=
  clickMethod
    ("click" ++ toPascalCase (stripSuffix "Link" (name e)) ++ "Link") (name e).

Definition generateHelperMethods (elements : list AnalyzedElement) : string :=
  join (map buttonMethod (filter (isType button) elements))
  ++ join (map inputMethod
             (filter (fun e => isType input e || isType textarea e) elements))
  ++ join (map selectMethod (filter (isType select) elements))
  ++ join (map checkboxMethods (filter (isType checkbox) elements))
  ++ join (map linkMethod (filter (isType link) elements)).

(** The template built from the deduplicated elements. *)
Definition renderTemplate (cfg : GeneratorConfig) (pageName_ : string)
    (uniqueElements : list AnalyzedElement) : string :=
  templateHeader (toPascalCase pageName_ ++ "Page")
  ++ declarationBlock uniqueElements
  ++ constructorBlock uniqueElements
  ++ (if includeGotoMethod (templateOptions cfg) then gotoMethod else "")
  ++ (if generateHelperMethodsFlag (templateOptions cfg)
      then generateHelperMethods uniqueElements else "")
  ++ "}" ++ nl.

Definition generateTemplate (cfg : GeneratorConfig) (pageName_ : string)
    (elements : AnalyzedPage) : option string :=
  let allElements := flattenElements elements in
  match deduplicateElements allElements with
  | Some uniqueElements => Some (renderTemplate cfg pageName_ uniqueElements)
  | None => None
  end.

(* ================================================================= *)
(** ** diff.ts *)

(** [new Map(metadata.elements.map(e => [e.name, e]))] *)
Definition indexByName (els : list AnalyzedElement)
  : JsMap.t AnalyzedElement :=
  JsMap.ofEntries (map (fun e => (name e, e)) els).

Definition emptyDiff : DiffResult :=
  {| added := []; removed := []; modified := []; unchanged := [] |}.

(** The first loop of [compare], over the entries of [newElements]. *)
Fixpoint classifyNew (oldElements : JsMap.t AnalyzedElement)
    (entries : list (string * AnalyzedElement)) (d : DiffResult)
  : DiffResult :=
  match entries with
  | [] => d
  | (name_, newEl) :: rest =>
      classifyNew oldElements rest
        match JsMap.get oldElements name_ with
        | None =>
            {| added := (added d ++ [newEl])%list; removed := removed d;
               modified := modified d; unchanged := unchanged d |}
        | Some oldEl =>
            if negb (locatorCode oldEl =? locatorCode newEl)
            then {| added := added d; removed := removed d;
                    modified :=
                      (modified d ++ [{| old := oldEl; new := newEl |}])%list;
                    unchanged := unchanged d |}
            else {| added := added d; removed := removed d;
                    modified := modified d;
                    unchanged := (unchanged d ++ [newEl])%list |}
        end
  end.

(** The second loop of [compare], over the entries of [oldElements]. *)
Fixpoint collectRemoved (newElements : JsMap.t AnalyzedElement)
    (entries : list (string * AnalyzedElement)) (d : DiffResult)
  : DiffResult :=
  match entries with
  | [] => d
  | (name_, oldEl) :: rest =>
      collectRemoved newElements rest
        (if negb (JsMap.has newElements name_)
         then {| added := added d; removed := (removed d ++ [oldEl])%list;
                 modified := modified d; unchanged := unchanged d |}
         else d)
  end.

Definition compare (oldMetadata newMetadata : PageObjectMetadata)
  : DiffResult :=
  let oldElements := indexByName (elements oldMetadata) in
  let newElements := indexByName (elements newMetadata) in
  collectRemoved newElements oldElements
    (classifyNew oldElements newElements emptyDiff).

Definition hasChanges (diff : DiffResult) : bool :=
  ((0 <? List.length (added diff)) || (0 <? List.length (removed diff))
   || (0 <? List.length (modified diff)))%nat.

(* ================================================================= *)
(** ** generator.ts and diff.ts, the remaining pure functions *)

Module Js2.

(** [s.includes(sub)]: [sub] occurs in [s]. *)
Fixpoint includes (sub s : string) : bool :=
  prefix sub s ||
  match s with
  | "" => false
  | String _ r => includes sub r
  end.

(** [s.startsWith(p)] *)
Definition startsWith (p s : string) : bool := prefix p s.

(** [lines.join('\n')] *)
Definition joinLines (lines : list string) : string := String.concat nl lines.

End Js2.

Import Js2.

(** [shouldIgnoreElement]: three tests in a row, the first that holds
    returns [true]. *)
Definition shouldIgnoreElement (cfg : GeneratorConfig) (info : ElementInfo)
  : bool :=
  let rules := ignoreRules cfg in
  if match truthyValue (idAttr info) with
     | Some i => existsb (fun ignoreId => includes ignoreId i) (ignoreIds rules)
     | None => false
     end
  then true
  else if match truthyValue (className info) with
          | Some c => existsb (fun cls => includes cls c) (ignoreClasses rules)
          | None => false
          end
  then true
  else if match truthyValue (role info) with
          | Some r => existsb (fun ignored => ignored =? r) (ignoreRoles rules)
          | None => false
          end
  then true
  else false.

(** *** [analyzePageElements] and [generateFromPage]

    The browser is outside the model.  What it hands over is a parameter:
    for each role queried with [page.getByRole(role).all()], the descriptors
    [extractElementInfo] returns for the located elements, in order. *)

Record FoundElements := {
  foundButtons : list ElementInfo;       (* role [button] *)
  foundLinks : list ElementInfo;         (* role [link] *)
  foundTextboxes : list ElementInfo;     (* role [textbox] *)
  foundComboboxes : list ElementInfo;    (* role [combobox] *)
  foundCheckboxes : list ElementInfo;    (* role [checkbox] *)
  foundRadios : list ElementInfo;        (* role [radio] *)
  foundHeadings : list ElementInfo       (* role [heading] *)
}.

(** One [for (const locator of ...)] loop of [analyzePageElements]: the
    elements it pushes, in order. *)
Fixpoint analyzeRole (cfg : GeneratorConfig) (elementType_ : ElementType)
    (infos : list ElementInfo) : list AnalyzedElement :=
  match infos with
  | [] => []
  | info :: rest =>
      if shouldIgnoreElement cfg info then analyzeRole cfg elementType_ rest
      else
        match createAnalyzedElement cfg info elementType_ with
        | Some analyzed => analyzed :: analyzeRole cfg elementType_ rest
        | None => analyzeRole cfg elementType_ rest
        end
  end.

(** [result] starts with nine empty arrays; seven loops push onto
    [buttons], [links], [inputs], [selects], [checkboxes], [radios] and
    [headings], and nothing pushes onto [textareas] and [others]. *)
Definition analyzePageElements (cfg : GeneratorConfig)
    (found : FoundElements) : AnalyzedPage :=
  {| buttons := analyzeRole cfg button (foundButtons found);
     inputs := analyzeRole cfg input (foundTextboxes found);
     links := analyzeRole cfg link (foundLinks found);
     selects := analyzeRole cfg select (foundComboboxes found);
     checkboxes := analyzeRole cfg checkbox (foundCheckboxes found);
     radios := analyzeRole cfg radio (foundRadios found);
     textareas := [];
     headings := analyzeRole cfg heading (foundHeadings found);
     others := [] |}.

(** [generateFromPage] on an initialised page: the emitted code and the
    metadata.  [now] is the value of [new Date().toISOString()] and
    [screenshotPath_] the path of the screenshot when one was taken. *)
Definition generateFromPage (cfg : GeneratorConfig) (now : string)
    (screenshotPath_ : option string) (pageName_ url_ : string)
    (found : FoundElements) : option (string * PageObjectMetadata) :=
  let elements_ := analyzePageElements cfg found in
  let allElements := flattenElements elements_ in
  let metadata :=
    {| url := url_;
       pageName := pageName_;
       generatedAt := now;
       elementCount := List.length allElements;
       elements := allElements;
       screenshotPath := screenshotPath_;
       config := Some cfg |} in
  match generateTemplate cfg pageName_ elements_ with
  | Some code => Some (code, metadata)
  | None => None
  end.

Definition locatorTypeString (t : LocatorType) : string :=
  match t with
  | getByRole => "getByRole" | getByLabel => "getByLabel"
  | getByText => "getByText" | getByPlaceholder => "getByPlaceholder"
  | getByTestId => "getByTestId" | locator => "locator"
  end.

(** *** [formatDiff] *)

Definition addedLine (el : AnalyzedElement) : string :=
  "  + " ++ name el ++ " (" ++ locatorTypeString (locatorType el) ++ ")".

Definition removedLine (el : AnalyzedElement) : string :=
  "  - " ++ name el ++ " (" ++ locatorTypeString (locatorType el) ++ ")".

Definition modifiedLines (p : ModifiedPair) : list string :=
  [ "  ~ " ++ name (old p) ++ ":";
    "    old: " ++ locatorCode (old p);
    "    new: " ++ locatorCode (new p) ].

(** The lines pushed by the three [if] blocks. *)
Definition bucketLines (diff : DiffResult) : list string :=
  ((if (0 <? List.length (added diff))%nat
    then "Added elements:" :: map addedLine (added diff) else [])
   ++ (if (0 <? List.length (removed diff))%nat
       then "Removed elements:" :: map removedLine (removed diff) else [])
   ++ (if (0 <? List.length (modified diff))%nat
       then "Modified elements:" :: flat_map modifiedLines (modified diff)
       else []))%list.

Definition summaryLine (diff : DiffResult) : string :=
  "Summary: +" ++ numberToString (List.length (added diff))
  ++ " -" ++ numberToString (List.length (removed diff))
  ++ " ~" ++ numberToString (List.length (modified diff)).

Definition formatDiff (diff : DiffResult) : string :=
  let lines := bucketLines diff in
  joinLines
    (if (List.length lines =? 0)%nat
     then (lines ++ ["No changes detected."])%list
     else summaryLine diff :: lines).

(** *** [toRefactorPlan] *)

Inductive RefactorActionType := add | remove | modify.

Record RefactorAction := {
  actionType : RefactorActionType;        (* [type] *)
  elementName : string;
  actionLocatorCode : option string;      (* [locatorCode?] *)
  oldLocatorCode : option string;
  newLocatorCode : option string;
  actionElementType : string              (* [elementType] *)
}.

Record RefactorSummary := {
  summaryAdded : nat;
  summaryRemoved : nat;
  summaryModified : nat;
  summaryUnchanged : nat
}.

Record RefactorPlan := {
  planPageName : string;
  planGeneratedAt : string;
  summary : RefactorSummary;
  actions : list RefactorAction
}.

Definition addAction (el : AnalyzedElement) : RefactorAction :=
  {| actionType := add; elementName := name el;
     actionLocatorCode := Some (locatorCode el);
     oldLocatorCode := None; newLocatorCode := None;
     actionElementType := elementTypeString (elementType el) |}.

Definition removeAction (el : AnalyzedElement) : RefactorAction :=
  {| actionType := remove; elementName := name el;
     actionLocatorCode := Some (locatorCode el);
     oldLocatorCode := None; newLocatorCode := None;
     actionElementType := elementTypeString (elementType el) |}.

Definition modifyAction (p : ModifiedPair) : RefactorAction :=
  {| actionType := modify; elementName := name (old p);
     actionLocatorCode := None;
     oldLocatorCode := Some (locatorCode (old p));
     newLocatorCode := Some (locatorCode (new p));
     actionElementType := elementTypeString (elementType (new p)) |}.

(** [now] is the value of [new Date().toISOString()] at the call. *)
Definition toRefactorPlan (now : string) (diff : DiffResult)
    (pageName_ : string) : RefactorPlan :=
  {| planPageName := pageName_;
     planGeneratedAt := now;
     summary := {| summaryAdded := List.length (added diff);
                   summaryRemoved := List.length (removed diff);
                   summaryModified := List.length (modified diff);
                   summaryUnchanged := List.length (unchanged diff) |};
     actions := (map addAction (added diff)
                 ++ map removeAction (removed diff)
                 ++ map modifyAction (modified diff))%list |}.

(* ================================================================= *)
(** ** The command line of the generator script: [parseArgs] *)

Record CliOptions := {
  screenshot : option bool;
  cliScreenshotPath : option string;     (* [screenshotPath] *)
  jsonOutput : option bool;
  verbose : option bool
}.

Record ParsedArgs := {
  command : string;
  cliUrl : option string;                (* [url] *)
  cliPageName : option string;           (* [pageName] *)
  outputPath : option string;
  options : CliOptions;
  metadataPath : option string;
  compareWith : option string
}.

(** The variables the loop of [parseArgs] assigns. *)
Record ArgState := {
  stOptions : CliOptions;
  stCommand : string;
  stMetadataPath : option string;
  stCompareWith : option string;
  positionalArgs : list string
}.

Definition initialArgState : ArgState :=
  {| stOptions := {| screenshot := None; cliScreenshotPath := None;
                     jsonOutput := None; verbose := None |};
     stCommand := "generate";
     stMetadataPath := None;
     stCompareWith := None;
     positionalArgs := [] |}.

(** [args[i + 1]] is truthy: there is a next argument and it is not
    empty. *)
Definition truthyNext (rest : list string) : bool :=
  match rest with
  | next :: _ => nonEmpty next
  | [] => false
  end.

(** The [for] loop of [parseArgs].  [args[++i]] takes the next argument,
    [undefined] at the end of the list, and skips it. *)
Fixpoint parseLoop (args : list string) (st : ArgState) : ArgState :=
  match args with
  | [] => st
  | arg :: rest =>
      let o := stOptions st in
      if (arg =? "--screenshot") || (arg =? "-s") then
        parseLoop rest
          {| stOptions := {| screenshot := Some true;
                             cliScreenshotPath := cliScreenshotPath o;
                             jsonOutput := jsonOutput o;
                             verbose := verbose o |};
             stCommand := stCommand st;
             stMetadataPath := stMetadataPath st;
             stCompareWith := stCompareWith st;
             positionalArgs := positionalArgs st |}
      else if (arg =? "--screenshot-path") && truthyNext rest then
        match rest with
        | next :: rest' =>
            parseLoop rest'
              {| stOptions := {| screenshot := Some true;
                                 cliScreenshotPath := Some next;
                                 jsonOutput := jsonOutput o;
                                 verbose := verbose o |};
                 stCommand := stCommand st;
                 stMetadataPath := stMetadataPath st;
                 stCompareWith := stCompareWith st;
                 positionalArgs := positionalArgs st |}
        | [] => st
        end
      else
            if (arg =? "--json") || (arg =? "-j") then
              parseLoop rest
                {| stOptions := {| screenshot := screenshot o;
                                   cliScreenshotPath := cliScreenshotPath o;
                                   jsonOutput := Some true;
                                   verbose := verbose o |};
                   stCommand := stCommand st;
                   stMetadataPath := stMetadataPath st;
                   stCompareWith := stCompareWith st;
                   positionalArgs := positionalArgs st |}
            else if (arg =? "--verbose") || (arg =? "-v") then
              parseLoop rest
                {| stOptions := {| screenshot := screenshot o;
                                   cliScreenshotPath := cliScreenshotPath o;
                                   jsonOutput := jsonOutput o;
                                   verbose := Some true |};
                   stCommand := stCommand st;
                   stMetadataPath := stMetadataPath st;
                   stCompareWith := stCompareWith st;
                   positionalArgs := positionalArgs st |}
            else if (arg =? "--metadata") || (arg =? "-m") then
              match rest with
              | next :: rest' =>
                  parseLoop rest'
                    {| stOptions := o;
                       stCommand := stCommand st;
                       stMetadataPath := Some next;
                       stCompareWith := stCompareWith st;
                       positionalArgs := positionalArgs st |}
              | [] =>
                  {| stOptions := o;
                     stCommand := stCommand st;
                     stMetadataPath := None;
                     stCompareWith := stCompareWith st;
                     positionalArgs := positionalArgs st |}
              end
            else if (arg =? "--compare") || (arg =? "-c") then
              match rest with
              | next :: rest' =>
                  parseLoop rest'
                    {| stOptions := o;
                       stCommand := "compare";
                       stMetadataPath := stMetadataPath st;
                       stCompareWith := Some next;
                       positionalArgs := positionalArgs st |}
              | [] =>
                  {| stOptions := o;
                     stCommand := "compare";
                     stMetadataPath := stMetadataPath st;
                     stCompareWith := None;
                     positionalArgs := positionalArgs st |}
              end
            else if (arg =? "generate") || (arg =? "compare")
                    || (arg =? "diff") then
              parseLoop rest
                {| stOptions := o;
                   stCommand := if arg =? "diff" then "compare" else arg;
                   stMetadataPath := stMetadataPath st;
                   stCompareWith := stCompareWith st;
                   positionalArgs := positionalArgs st |}
            else if negb (startsWith "-" arg) then
              parseLoop rest
                {| stOptions := o;
                   stCommand := stCommand st;
                   stMetadataPath := stMetadataPath st;
                   stCompareWith := stCompareWith st;
                   positionalArgs := (positionalArgs st ++ [arg])%list |}
            else parseLoop rest st
  end.

Definition parseArgs (args : list string) : ParsedArgs :=
  let st := parseLoop args initialArgState in
  let positional :=
    if (stCommand st =? "generate") || (stCommand st =? "compare")
    then positionalArgs st else [] in
  {| command := stCommand st;
     cliUrl := nth_error positional 0;
     cliPageName := nth_error positional 1;
     outputPath := nth_error positional 2;
     options := stOptions st;
     metadataPath := stMetadataPath st;
     compareWith := stCompareWith st |}.

(* ================================================================= *)
(** ** Notions used by the statements

    The definitions of this part are not code of the repository: they are
    the predicates and measures in which the properties are stated. *)

(** *** Escaping *)

(** Whether a single quote of [s] is read as a quote when [s] stands between
    single quotes in the generated source: a backslash escapes the character
    after it, so a quote is raw when an even number of backslashes precedes
    it.  [escaped] says that the previous character was an escaping
    backslash. *)
Fixpoint rawQuoteFrom (escaped : bool) (s : string) : bool :=
  match s with
  | "" => false
  | String c r =>
      if escaped then rawQuoteFrom false r
      else if Ascii.eqb c BACKSLASH then rawQuoteFrom true r
      else if Ascii.eqb c QUOTE then true
      else rawQuoteFrom false r
  end.

Definition hasRawQuote (s : string) : bool := rawQuoteFrom false s.

(** Whether every single quote of [s] comes immediately after a backslash.
    [afterBackslash] says that the previous character was a backslash. *)
Fixpoint quotesFollowBackslash (afterBackslash : bool) (s : string) : bool :=
  match s with
  | "" => true
  | String c r =>
      (if Ascii.eqb c QUOTE then afterBackslash else true)
      && quotesFollowBackslash (Ascii.eqb c BACKSLASH) r
  end.

(** Whether the backslashes and single quotes of [s] come in pairs only, a
    backslash immediately followed by a quote.  [afterBackslash] says that
    the previous character was the backslash of a pair. *)
Fixpoint escapedPairs (afterBackslash : bool) (s : string) : bool :=
  match s with
  | "" => negb afterBackslash
  | String c r =>
      if afterBackslash then Ascii.eqb c QUOTE && escapedPairs false r
      else if Ascii.eqb c BACKSLASH then escapedPairs true r
      else negb (Ascii.eqb c QUOTE) && escapedPairs false r
  end.

(** Whether [s] holds the character [c]. *)
Fixpoint hasChar (c : ascii) (s : string) : bool :=
  match s with
  | "" => false
  | String x r => Ascii.eqb x c || hasChar c r
  end.

(** *** Deduplication *)

(** What one iteration does to [element], the identifiers in [used] being
    those emitted before it: the emitted element [element'] differs from
    [element] in its name at most, its name is not in [used], it is
    [element] itself when the name of [element] is not in [used], and
    otherwise its name is the name of [element] followed by the least
    counter from 2 on whose candidate is not in [used]. *)
Definition renamedAgainst (used : list string)
    (element element' : AnalyzedElement) : Prop :=
  element' = withName element (name element') /\
  ~ In (name element') used /\
  (~ In (name element) used -> element' = element) /\
  (In (name element) used ->
   exists counter,
     2 <= counter /\
     name element' = name element ++ numberToString counter /\
     forall c, 2 <= c < counter ->
               In (name element ++ numberToString c) used).

(** *** Locator resolution as a call *)

(** Completion of a call: a returned value or a thrown error.
    [generateLocator] has no [throw] and calls nothing that throws, so a
    call of it completes by returning. *)
Inductive Completion (A : Type) : Type :=
| Returned (value : A)
| Thrown (message : string).

Arguments Returned {A} value.
Arguments Thrown {A} message.

Definition resolveLocator (cfg : GeneratorConfig) (info : ElementInfo)
    (elementType : ElementType) : Completion LocatorResult :=
  Returned (generateLocator cfg info elementType).

(** *** The differ *)

(** An entry whose key is the name of its element. *)
Definition keyedByName (kv : string * AnalyzedElement) : Prop :=
  name (snd kv) = fst kv.

(** The identifiers the four buckets hold, bucket after bucket.  A modified
    pair is reported under the name of its old element, as [formatDiff]
    and [toRefactorPlan] do. *)
Definition addedIds (d : DiffResult) : list string := map name (added d).
Definition removedIds (d : DiffResult) : list string := map name (removed d).
Definition modifiedIds (d : DiffResult) : list string :=
  map (fun p => name (old p)) (modified d).
Definition unchangedIds (d : DiffResult) : list string :=
  map name (unchanged d).

(** The identifiers filed by the first loop of [compare]. *)
Definition newSideIds (d : DiffResult) : list string :=
  (addedIds d ++ modifiedIds d ++ unchangedIds d)%list.

Definition bucketIds (d : DiffResult) : list string :=
  (addedIds d ++ removedIds d ++ modifiedIds d ++ unchangedIds d)%list.

(** A metadata file holding the given elements. *)
Definition metadataOf (els : list AnalyzedElement) : PageObjectMetadata :=
  {| url := "https://example.test/";
     pageName := "example";
     generatedAt := "2024-01-01T00:00:00.000Z";
     elementCount := List.length els;
     elements := els;
     screenshotPath := None;
     config := None |}.

(** *** Character classes of a string *)

(** Whether every character of [s] satisfies [p]. *)
Fixpoint allChars (p : ascii -> bool) (s : string) : bool :=
  match s with
  | "" => true
  | String c r => p c && allChars p r
  end.

Definition startsWithWhiteSpace (s : string) : bool :=
  match s with
  | "" => false
  | String c _ => isWhiteSpace c
  end.

Fixpoint endsWithWhiteSpace (s : string) : bool :=
  match s with
  | "" => false
  | String c r =>
      match r with
      | "" => isWhiteSpace c
      | String _ _ => endsWithWhiteSpace r
      end
  end.

(** *** The command line *)

Module CliNotions.

(** The two commands [main] acts on. *)
Definition commandOk (c : string) : Prop := c = "generate" \/ c = "compare".

End CliNotions.

(* ================================================================= *)
(** ** Sample inputs *)

Module Samples.

Definition noInfo (tag : string) : ElementInfo :=
  {| tagName := tag; role := None; label := None; text := None;
     placeholder := None; nameAttr := None; idAttr := None;
     className := None; typeAttr := None; ariaLabel := None;
     testId := None |}.

Definition element (n code : string) (lt : LocatorType) (t : ElementType)
  : AnalyzedElement :=
  {| name := n; locatorCode := code; locatorType := lt; elementType := t;
     originalInfo := noInfo (elementTypeString t) |}.

Definition emailA : AnalyzedElement :=
  element "emailInput" "getByLabel('Email')" getByLabel input.
Definition emailB : AnalyzedElement :=
  element "emailInput" "getByPlaceholder('Email')" getByPlaceholder input.
(** [emailA] with another strategy tag and category, same locator. *)
Definition emailA' : AnalyzedElement :=
  element "emailInput" "getByLabel('Email')" locator textarea.
Definition phoneC : AnalyzedElement :=
  element "phoneInput" "getByLabel('Phone')" getByLabel input.

Definition oldBatch : PageObjectMetadata := metadataOf [emailA].
Definition newBatch : PageObjectMetadata := metadataOf [emailB; phoneC].
Definition sameLocatorBatch : PageObjectMetadata := metadataOf [emailA'].

End Samples.

Module DedupSamples.

Definition a1 : AnalyzedElement :=
  Samples.element "a" "getByRole('button', { name: 'A' })" getByRole button.
Definition a2 : AnalyzedElement :=
  Samples.element "a" "getByText('A')" getByText button.
(** The first element of the batch that bears the name [a2]. *)
Definition b : AnalyzedElement :=
  Samples.element "a2" "getByLabel('A2')" getByLabel input.

End DedupSamples.

Module ResolverSamples.

(** [{ariaLabel: "Log in", role: "button"}], every other optional field
    being [null]. *)
Definition loginDescriptor (tag : string) : ElementInfo :=
  {| tagName := tag; role := Some "button"; label := None; text := None;
     placeholder := None; nameAttr := None; idAttr := None;
     className := None; typeAttr := None; ariaLabel := Some "Log in";
     testId := None |}.

(** A visible text of 51 characters. *)
Definition longText : string :=
  "Subscribe to our weekly newsletter and product news".

(** A button without aria-label whose visible text is [longText]. *)
Definition longTextButton : ElementInfo :=
  {| tagName := "button"; role := None; label := None;
     text := Some longText; placeholder := None; nameAttr := None;
     idAttr := None; className := None; typeAttr := None;
     ariaLabel := None; testId := None |}.

(** The configuration a user gets who supplies an empty priority list. *)
Definition emptyPriorityConfig : GeneratorConfig :=
  mergeConfig (Some {| userLocatorPriority := Some [];
                       userNamingRules := None;
                       userIgnoreRules := None;
                       userTemplateOptions := None |}).

End ResolverSamples.

Module EscapeSamples.

(** A backslash, a single quote and a line feed. *)
Definition backslashQuote : string :=
  String BACKSLASH (String QUOTE (String LF "")).

End EscapeSamples.

Module TemplateSamples.

Definition submit : AnalyzedElement :=
  Samples.element "submitButton" "getByRole('button', { name: 'Submit' })"
    getByRole button.

(** What the browser finds on a page with a log-in button and a
    heading. *)
Definition loginPageFound : FoundElements :=
  {| foundButtons := [ResolverSamples.loginDescriptor "button"];
     foundLinks := [];
     foundTextboxes := [];
     foundComboboxes := [];
     foundCheckboxes := [];
     foundRadios := [];
     foundHeadings :=
       [{| tagName := "h1"; role := None; label := None;
           text := Some "Welcome"; placeholder := None; nameAttr := None;
           idAttr := None; className := None; typeAttr := None;
           ariaLabel := None; testId := None |}] |}.

End TemplateSamples.

Module ExtraSamples.

(** A descriptor with an aria-label and an associated label. *)
Definition labelledButton : ElementInfo :=
  {| tagName := "button"; role := None; label := Some "Send the form";
     text := None; placeholder := None; nameAttr := None; idAttr := None;
     className := None; typeAttr := None; ariaLabel := Some "Send";
     testId := None |}.

(** The default configuration with the label strategy first. *)
Definition labelFirstConfig : GeneratorConfig :=
  mergeConfig (Some {| userLocatorPriority := Some [getByLabel; getByRole];
                       userNamingRules := None;
                       userIgnoreRules := None;
                       userTemplateOptions := None |}).

(** A configuration whose id rule holds the empty string. *)
Definition emptyIdRuleConfig : GeneratorConfig :=
  mergeConfig (Some {| userLocatorPriority := None;
                       userNamingRules := None;
                       userIgnoreRules :=
                         Some {| ignoreClasses := []; ignoreIds := [""];
                                 ignoreRoles := [] |};
                       userTemplateOptions := None |}).

Definition withId (i : string) : ElementInfo :=
  {| tagName := "input"; role := None; label := None; text := None;
     placeholder := None; nameAttr := None; idAttr := Some i;
     className := None; typeAttr := None; ariaLabel := None;
     testId := None |}.

End ExtraSamples.

(* ================================================================= *)
(** * Properties *)

(** ** Facts about [JsMap] *)

Module JsMapFacts.
Import JsMap.

Section Facts.
Context {V : Type}.
Implicit Types (m : JsMap.t V) (k : string) (v : V).

Lemma has_true_iff m k : has m k = true <-> In k (keys m).
Proof.
  unfold has. induction m as [|[k' v'] m IH]; simpl.
  - split; [discriminate | tauto].
  - destruct (String.eqb_spec k' k) as [->|Hne].
    + split; auto.
    + rewrite IH. split; [auto | intros [H|H]; [congruence | exact H]].
Qed.

Lemma has_false_iff m k : has m k = false <-> ~ In k (keys m).
Proof.
  rewrite <- has_true_iff. destruct (has m k); split; congruence.
Qed.

Lemma get_None_iff m k : get m k = None <-> ~ In k (keys m).
Proof.
  rewrite <- has_false_iff. unfold has.
  destruct (get m k); split; congruence.
Qed.

Lemma has_get_None m k : has m k = false <-> get m k = None.
Proof. rewrite has_false_iff, get_None_iff. tauto. Qed.

Lemma get_Some_In m k v : get m k = Some v -> In (k, v) m.
Proof.
  induction m as [|[k' v'] m IH]; simpl; [discriminate|].
  destruct (String.eqb_spec k' k) as [->|Hne].
  - intros [= ->]. now left.
  - intros H. right. auto.
Qed.

Lemma In_get_Some m k v : NoDup (keys m) -> In (k, v) m -> get m k = Some v.
Proof.
  induction m as [|[k' v'] m IH]; simpl; [tauto|].
  intros Hnd [Heq|Hin].
  - injection Heq as -> ->. now rewrite String.eqb_refl.
  - inversion Hnd as [|? ? Hnotin Hnd']; subst.
    destruct (String.eqb_spec k' k) as [->|Hne].
    + exfalso. apply Hnotin. change k with (fst (k, v)).
      now apply in_map.
    + auto.
Qed.

Lemma get_Some_iff m k v :
  NoDup (keys m) -> (get m k = Some v <-> In (k, v) m).
Proof. split; [apply get_Some_In | now apply In_get_Some]. Qed.

(** Setting an absent key appends the entry. *)
Lemma set_absent m k v : has m k = false -> set m k v = (m ++ [(k, v)])%list.
Proof.
  unfold has. induction m as [|[k' v'] m IH]; simpl; [reflexivity|].
  destruct (String.eqb_spec k' k) as [->|Hne]; [discriminate|].
  intros H. now rewrite IH.
Qed.

(** Setting a present key leaves the keys and their order alone. *)
Lemma keys_set_present m k v : has m k = true -> keys (set m k v) = keys m.
Proof.
  unfold has. induction m as [|[k' v'] m IH]; simpl; [discriminate|].
  destruct (String.eqb_spec k' k) as [->|Hne]; [reflexivity|].
  intros H. simpl. f_equal. now apply IH.
Qed.

Lemma keys_set m k v :
  keys (set m k v) = if has m k then keys m else (keys m ++ [k])%list.
Proof.
  destruct (has m k) eqn:E.
  - now apply keys_set_present.
  - rewrite set_absent by exact E. unfold keys. now rewrite map_app.
Qed.

Lemma NoDup_keys_set m k v : NoDup (keys m) -> NoDup (keys (set m k v)).
Proof.
  intros Hnd. rewrite keys_set. destruct (has m k) eqn:E; [exact Hnd|].
  apply has_false_iff in E.
  apply NoDup_app; [exact Hnd | repeat constructor; intros [] |].
  intros a Ha [<-|[]]. now apply E.
Qed.

Lemma In_keys_set m k v k' :
  In k' (keys (set m k v)) <-> k' = k \/ In k' (keys m).
Proof.
  rewrite keys_set. destruct (has m k) eqn:E.
  - apply has_true_iff in E. split; [auto | intros [->|H]; auto].
  - rewrite in_app_iff. simpl. intuition congruence.
Qed.

Lemma get_set m k v k' :
  get (set m k v) k' = if k =? k' then Some v else get m k'.
Proof.
  induction m as [|[k0 v0] m IH]; simpl.
  - reflexivity.
  - destruct (String.eqb_spec k0 k) as [->|Hne]; simpl.
    + destruct (String.eqb_spec k k'); reflexivity.
    + destruct (String.eqb_spec k0 k') as [->|Hne'].
      * destruct (String.eqb_spec k k'); [congruence | reflexivity].
      * exact IH.
Qed.

(** The values of a map all satisfy a property that every stored value
    satisfied when it was stored. *)
Lemma Forall_set (P : string * V -> Prop) m k v :
  Forall P m -> P (k, v) -> Forall P (set m k v).
Proof.
  induction m as [|[k0 v0] m IH]; simpl; intros Hm Hkv.
  - now constructor.
  - inversion Hm; subst.
    destruct (k0 =? k); constructor; auto.
Qed.

Lemma fold_set_spec (P : string * V -> Prop) (es : list (string * V)) m :
  NoDup (keys m) -> Forall P m -> Forall P es ->
  exists m', m' = fold_left (fun m e => set m (fst e) (snd e)) es m /\
  NoDup (keys m') /\ Forall P m' /\
  (forall k, In k (keys m') <-> In k (keys m) \/ In k (map fst es)).
Proof.
  revert m. induction es as [|[k v] es IH]; simpl; intros m Hnd Hm Hes;
    eexists; (split; [reflexivity|]).
  - split; [|split]; auto. intros k. tauto.
  - inversion Hes as [|? ? Hkv Hes']; subst.
    destruct (IH (set m k v)) as (m' & -> & H1 & H2 & H3);
      [now apply NoDup_keys_set | now apply Forall_set | assumption |].
    split; [|split]; auto.
    intros k'. rewrite H3, In_keys_set. intuition congruence.
Qed.

Lemma ofEntries_spec (P : string * V -> Prop) (es : list (string * V)) :
  Forall P es ->
  NoDup (keys (ofEntries es)) /\ Forall P (ofEntries es) /\
  (forall k, In k (keys (ofEntries es)) <-> In k (map fst es)).
Proof.
  intros Hes.
  destruct (fold_set_spec P es empty) as (m' & -> & H1 & H2 & H3);
    [constructor | constructor | exact Hes |].
  split; [|split]; auto.
  intros k. unfold ofEntries. rewrite H3. simpl. tauto.
Qed.
End Facts.

End JsMapFacts.

(* ================================================================= *)
(** ** The metadata differ *)

Module DiffFacts.
Import JsMap JsMapFacts.

Lemma indexByName_spec (els : list AnalyzedElement) :
  NoDup (keys (indexByName els)) /\
  Forall keyedByName (indexByName els) /\
  (forall k, In k (keys (indexByName els)) <-> In k (map name els)).
Proof.
  unfold indexByName.
  destruct (ofEntries_spec keyedByName (map (fun e => (name e, e)) els))
    as (H1 & H2 & H3).
  - apply Forall_forall. intros kv Hin. apply in_map_iff in Hin.
    destruct Hin as (e & <- & _). reflexivity.
  - split; [|split]; auto.
    intros k. rewrite H3, map_map. simpl. tauto.
Qed.

Lemma keyedByName_get (m : JsMap.t AnalyzedElement) k e :
  Forall keyedByName m -> get m k = Some e -> name e = k.
Proof.
  intros Hm Hget. apply get_Some_In in Hget.
  rewrite Forall_forall in Hm. exact (Hm _ Hget).
Qed.

(** With distinct identifiers the index holds the batch itself. *)
Lemma indexByName_unique (els : list AnalyzedElement) :
  NoDup (map name els) -> indexByName els = map (fun e => (name e, e)) els.
Proof.
  unfold indexByName, ofEntries.
  change (map (fun e => (name e, e)) els)
    with (@empty AnalyzedElement ++ map (fun e => (name e, e)) els)%list at 2.
  assert (G : forall (m : JsMap.t AnalyzedElement),
             NoDup (keys m ++ map name els) ->
             fold_left (fun m e => set m (fst e) (snd e))
               (map (fun e => (name e, e)) els) m
             = (m ++ map (fun e => (name e, e)) els)%list).
  { induction els as [|e els IH]; simpl; intros m Hnd.
    - now rewrite app_nil_r.
    - rewrite set_absent.
      + rewrite IH.
        * now rewrite <- app_assoc.
        * unfold keys in *. rewrite map_app, <- app_assoc. exact Hnd.
      + apply has_false_iff. intros Hin.
        apply NoDup_remove_2 in Hnd. apply Hnd.
        apply in_or_app. now left. }
  intros Hnd. now apply G.
Qed.

Lemma indexByName_get_unique (els : list AnalyzedElement) e :
  NoDup (map name els) -> In e els -> get (indexByName els) (name e) = Some e.
Proof.
  intros Hnd Hin.
  destruct (indexByName_spec els) as (Hk & _ & _).
  apply In_get_Some; [exact Hk|].
  rewrite indexByName_unique by exact Hnd.
  apply in_map_iff. now exists e.
Qed.

Section FirstLoop.
Variable oldElements : JsMap.t AnalyzedElement.

Lemma classifyNew_added entries d :
  added (classifyNew oldElements entries d)
  = (added d
     ++ map snd (filter (fun kv => negb (has oldElements (fst kv))) entries))
    %list.
Proof.
  revert d. induction entries as [|[k n] rest IH]; intros d; simpl.
  - now rewrite app_nil_r.
  - rewrite IH. unfold has.
    destruct (get oldElements k) as [o|]; simpl.
    + now destruct (negb (locatorCode o =? locatorCode n)).
    + now rewrite <- app_assoc.
Qed.

Lemma classifyNew_removed entries d :
  removed (classifyNew oldElements entries d) = removed d.
Proof.
  revert d. induction entries as [|[k n] rest IH]; intros d; simpl.
  - reflexivity.
  - rewrite IH. destruct (get oldElements k) as [o|]; simpl; [|reflexivity].
    now destruct (negb (locatorCode o =? locatorCode n)).
Qed.

Lemma classifyNew_modified entries d p :
  In p (modified (classifyNew oldElements entries d)) <->
  In p (modified d) \/
  exists k, In (k, new p) entries /\ get oldElements k = Some (old p) /\
            locatorCode (old p) <> locatorCode (new p).
Proof.
  revert d. induction entries as [|[k n] rest IH]; intros d; simpl.
  - split; [auto | intros [H|(k & [] & _)]; exact H].
  - rewrite IH. clear IH.
    destruct (get oldElements k) as [o|] eqn:G; simpl.
    + destruct (String.eqb_spec (locatorCode o) (locatorCode n))
        as [Heq|Hne]; simpl.
      * split; (intros [H|(k' & Hin & Hget & Hd)]; [now left|]).
        -- right. exists k'. auto.
        -- destruct Hin as [E|Hin]; [|right; exists k'; auto].
           injection E as Ek En. exfalso. apply Hd. congruence.
      * rewrite in_app_iff. simpl.
        split.
        -- intros [[H|[<-|[]]]|(k' & Hin & Hget & Hd)].
           ++ now left.
           ++ right. exists k. simpl. auto.
           ++ right. exists k'. auto.
        -- intros [H|(k' & [E|Hin] & Hget & Hd)].
           ++ left. now left.
           ++ left. right. left. injection E as Ek En.
              destruct p as [po pn]. simpl in *. congruence.
           ++ right. exists k'. auto.
    + split; (intros [H|(k' & Hin & Hget & Hd)]; [now left|]).
      * right. exists k'. auto.
      * destruct Hin as [E|Hin]; [injection E as Ek En; congruence|].
        right. exists k'. auto.
Qed.

Lemma classifyNew_unchanged entries d e :
  In e (unchanged (classifyNew oldElements entries d)) <->
  In e (unchanged d) \/
  exists k o, In (k, e) entries /\ get oldElements k = Some o /\
              locatorCode o = locatorCode e.
Proof.
  revert d. induction entries as [|[k n] rest IH]; intros d; simpl.
  - split; [auto | intros [H|(k & o & [] & _)]; exact H].
  - rewrite IH. clear IH.
    destruct (get oldElements k) as [o|] eqn:G; simpl.
    + destruct (String.eqb_spec (locatorCode o) (locatorCode n))
        as [Heq|Hne]; simpl.
      * rewrite in_app_iff. simpl. split.
        -- intros [[H|[<-|[]]]|(k' & o' & Hin & Hget & Hd)].
           ++ now left.
           ++ right. exists k, o. auto.
           ++ right. exists k', o'. auto.
        -- intros [H|(k' & o' & [E|Hin] & Hget & Hd)].
           ++ left. now left.
           ++ left. right. left. congruence.
           ++ right. exists k', o'. auto.
      * split; (intros [H|(k' & o' & Hin & Hget & Hd)]; [now left|]).
        -- right. exists k', o'. auto.
        -- destruct Hin as [E|Hin]; [|right; exists k', o'; auto].
           injection E as Ek En. exfalso. apply Hne. congruence.
    + split; (intros [H|(k' & o' & Hin & Hget & Hd)]; [now left|]).
      * right. exists k', o'. auto.
      * destruct Hin as [E|Hin]; [injection E as Ek En; congruence|].
        right. exists k', o'. auto.
Qed.
End FirstLoop.

Section FirstLoopCount.
Variable oldElements : JsMap.t AnalyzedElement.
Hypothesis oldKeyed : Forall keyedByName oldElements.

(** Each entry of [newElements] is filed once, under its key. *)
Lemma classifyNew_count entries d id :
  Forall keyedByName entries ->
  count_occ string_dec (newSideIds (classifyNew oldElements entries d)) id
  = count_occ string_dec (newSideIds d) id
    + count_occ string_dec (map fst entries) id.
Proof.
  revert d. induction entries as [|[k n] rest IH]; intros d Hes.
  - simpl. lia.
  - inversion Hes as [|? ? Hkn Hrest]; subst.
    unfold keyedByName in Hkn. simpl in Hkn.
    cbn [classifyNew]. rewrite IH by exact Hrest. clear IH.
    cbn [map fst count_occ].
    destruct (get oldElements k) as [o|] eqn:G.
    + pose proof (keyedByName_get _ _ _ oldKeyed G) as Ho.
      destruct (negb (locatorCode o =? locatorCode n));
        unfold newSideIds, addedIds, modifiedIds, unchangedIds; simpl;
        rewrite ?map_app, ?count_occ_app; simpl;
        rewrite ?Ho, ?Hkn; destruct (string_dec k id); lia.
    + unfold newSideIds, addedIds, modifiedIds, unchangedIds; simpl.
      rewrite ?map_app, ?count_occ_app; simpl.
      rewrite ?Hkn; destruct (string_dec k id); lia.
Qed.
End FirstLoopCount.

Section SecondLoop.
Variable newElements : JsMap.t AnalyzedElement.

Lemma collectRemoved_removed entries d :
  removed (collectRemoved newElements entries d)
  = (removed d
     ++ map snd (filter (fun kv => negb (has newElements (fst kv))) entries))
    %list.
Proof.
  revert d. induction entries as [|[k o] rest IH]; intros d; simpl.
  - now rewrite app_nil_r.
  - rewrite IH. destruct (has newElements k); simpl; [reflexivity|].
    now rewrite <- app_assoc.
Qed.

Lemma collectRemoved_others entries d :
  added (collectRemoved newElements entries d) = added d /\
  modified (collectRemoved newElements entries d) = modified d /\
  unchanged (collectRemoved newElements entries d) = unchanged d.
Proof.
  revert d. induction entries as [|[k o] rest IH]; intros d; simpl.
  - auto.
  - destruct (IH (if negb (has newElements k)
                  then {| added := added d;
                          removed := (removed d ++ [o])%list;
                          modified := modified d;
                          unchanged := unchanged d |}
                  else d)) as (H1 & H2 & H3).
    rewrite H1, H2, H3. now destruct (has newElements k).
Qed.

Lemma removed_count entries id :
  Forall keyedByName entries ->
  count_occ string_dec
    (map name
       (map snd
          (filter (fun kv => negb (has newElements (fst kv))) entries))) id
  = if has newElements id then 0
    else count_occ string_dec (map fst entries) id.
Proof.
  induction entries as [|[k o] rest IH]; intros Hes.
  - simpl. now destruct (has newElements id).
  - inversion Hes as [|? ? Hko Hrest]; subst.
    unfold keyedByName in Hko. simpl in Hko. specialize (IH Hrest).
    simpl. destruct (has newElements k) eqn:Hk; simpl.
    + rewrite IH. destruct (string_dec k id) as [->|]; [|reflexivity].
      now rewrite Hk.
    + rewrite Hko, IH. destruct (string_dec k id) as [->|]; [|reflexivity].
      now rewrite Hk.
Qed.
End SecondLoop.

(** The number of times an identifier is filed by [compare]. *)
Lemma compare_count (oldMetadata newMetadata : PageObjectMetadata) id :
  count_occ string_dec (bucketIds (compare oldMetadata newMetadata)) id
  = count_occ string_dec (keys (indexByName (elements newMetadata))) id
    + (if has (indexByName (elements newMetadata)) id then 0
       else count_occ string_dec
              (keys (indexByName (elements oldMetadata))) id).
Proof.
  unfold compare.
  set (O := indexByName (elements oldMetadata)).
  set (N := indexByName (elements newMetadata)).
  destruct (indexByName_spec (elements oldMetadata)) as (_ & HO & _).
  destruct (indexByName_spec (elements newMetadata)) as (_ & HN & _).
  fold O in HO. fold N in HN.
  pose proof (classifyNew_count O HO N emptyDiff id HN) as Hc.
  destruct (collectRemoved_others N O (classifyNew O N emptyDiff))
    as (Ha & Hm & Hu).
  pose proof (collectRemoved_removed N O (classifyNew O N emptyDiff)) as Hr.
  rewrite classifyNew_removed in Hr. simpl in Hr.
  pose proof (removed_count N O id HO) as Hrc.
  unfold bucketIds, newSideIds, addedIds, removedIds, modifiedIds,
    unchangedIds in *.
  rewrite Ha, Hm, Hu, Hr.
  rewrite !count_occ_app in *. simpl in Hc.
  rewrite Hrc. unfold keys. lia.
Qed.

Lemma count_occ_NoDup_In (l : list string) id :
  NoDup l -> In id l -> count_occ string_dec l id = 1.
Proof.
  intros Hnd Hin.
  apply (count_occ_In string_dec) in Hin.
  rewrite (NoDup_count_occ string_dec) in Hnd.
  specialize (Hnd id). lia.
Qed.

(** Membership in the buckets of [compare], by the two indexes. *)
Lemma compare_modified oldMetadata newMetadata p :
  In p (modified (compare oldMetadata newMetadata)) <->
  exists k, get (indexByName (elements newMetadata)) k = Some (new p) /\
            get (indexByName (elements oldMetadata)) k = Some (old p) /\
            locatorCode (old p) <> locatorCode (new p).
Proof.
  unfold compare.
  destruct (collectRemoved_others (indexByName (elements newMetadata))
              (indexByName (elements oldMetadata))
              (classifyNew (indexByName (elements oldMetadata))
                 (indexByName (elements newMetadata)) emptyDiff))
    as (_ & -> & _).
  rewrite classifyNew_modified. simpl.
  destruct (indexByName_spec (elements newMetadata)) as (Hnd & _ & _).
  split.
  - intros [[]|(k & Hin & H)]. exists k. split; [|exact H].
    now apply In_get_Some.
  - intros (k & Hget & H). right. exists k. split; [|exact H].
    now apply get_Some_In.
Qed.

Lemma compare_unchanged oldMetadata newMetadata e :
  In e (unchanged (compare oldMetadata newMetadata)) <->
  exists k o, get (indexByName (elements newMetadata)) k = Some e /\
              get (indexByName (elements oldMetadata)) k = Some o /\
              locatorCode o = locatorCode e.
Proof.
  unfold compare.
  destruct (collectRemoved_others (indexByName (elements newMetadata))
              (indexByName (elements oldMetadata))
              (classifyNew (indexByName (elements oldMetadata))
                 (indexByName (elements newMetadata)) emptyDiff))
    as (_ & _ & ->).
  rewrite classifyNew_unchanged. simpl.
  destruct (indexByName_spec (elements newMetadata)) as (Hnd & _ & _).
  split.
  - intros [[]|(k & o & Hin & H)]. exists k, o. split; [|exact H].
    now apply In_get_Some.
  - intros (k & o & Hget & H). right. exists k, o. split; [|exact H].
    now apply get_Some_In.
Qed.

Lemma compare_added oldMetadata newMetadata :
  added (compare oldMetadata newMetadata)
  = map snd
      (filter (fun kv => negb (has (indexByName (elements oldMetadata)) (fst kv)))
         (indexByName (elements newMetadata))).
Proof.
  unfold compare.
  destruct (collectRemoved_others (indexByName (elements newMetadata))
              (indexByName (elements oldMetadata))
              (classifyNew (indexByName (elements oldMetadata))
                 (indexByName (elements newMetadata)) emptyDiff))
    as (-> & _ & _).
  now rewrite classifyNew_added.
Qed.

Lemma compare_removed oldMetadata newMetadata :
  removed (compare oldMetadata newMetadata)
  = map snd
      (filter (fun kv => negb (has (indexByName (elements newMetadata)) (fst kv)))
         (indexByName (elements oldMetadata))).
Proof.
  unfold compare. rewrite collectRemoved_removed, classifyNew_removed.
  reflexivity.
Qed.

End DiffFacts.


(** *** Claims about the differ *)

(** C1.  Every identifier appearing in the old or in the new batch occurs
    exactly once in the concatenation of the four buckets of
    [compare old new], so it lies in exactly one bucket and once there; an
    identifier in a bucket comes from one of the batches; and [hasChanges]
    is true exactly when [added], [removed] or [modified] is non-empty.
    The statement holds for all batches, in particular for those whose
    identifiers are pairwise unique. *)
Theorem compare_partitions_identifiers
    (oldMetadata newMetadata : PageObjectMetadata) :
  (forall id,
      In id (map name (elements oldMetadata)) \/
      In id (map name (elements newMetadata)) ->
      count_occ string_dec (bucketIds (compare oldMetadata newMetadata)) id
      = 1) /\
  (forall id,
      In id (bucketIds (compare oldMetadata newMetadata)) ->
      In id (map name (elements oldMetadata)) \/
      In id (map name (elements newMetadata))) /\
  (hasChanges (compare oldMetadata newMetadata) = true <->
   added (compare oldMetadata newMetadata) <> [] \/
   removed (compare oldMetadata newMetadata) <> [] \/
   modified (compare oldMetadata newMetadata) <> []).
Proof.
  destruct (DiffFacts.indexByName_spec (elements oldMetadata))
    as (HOnd & _ & HOk).
  destruct (DiffFacts.indexByName_spec (elements newMetadata))
    as (HNnd & _ & HNk).
  assert (Hcount : forall id,
    count_occ string_dec (bucketIds (compare oldMetadata newMetadata)) id
    = if JsMap.has (indexByName (elements newMetadata)) id then 1
      else if JsMap.has (indexByName (elements oldMetadata)) id then 1
           else 0).
  { intros id. rewrite DiffFacts.compare_count.
    destruct (JsMap.has (indexByName (elements newMetadata)) id) eqn:EN.
    - apply JsMapFacts.has_true_iff in EN.
      rewrite (DiffFacts.count_occ_NoDup_In _ _ HNnd EN). reflexivity.
    - apply JsMapFacts.has_false_iff in EN.
      rewrite (proj1 (count_occ_not_In string_dec _ _) EN). simpl.
      destruct (JsMap.has (indexByName (elements oldMetadata)) id) eqn:EO.
      + apply JsMapFacts.has_true_iff in EO.
        now apply DiffFacts.count_occ_NoDup_In.
      + apply JsMapFacts.has_false_iff in EO.
        now apply count_occ_not_In. }
  split; [|split].
  - intros id Hin. rewrite Hcount.
    destruct (JsMap.has (indexByName (elements newMetadata)) id) eqn:EN;
      [reflexivity|].
    destruct (JsMap.has (indexByName (elements oldMetadata)) id) eqn:EO;
      [reflexivity|].
    apply JsMapFacts.has_false_iff in EN, EO.
    rewrite HNk in EN. rewrite HOk in EO. tauto.
  - intros id Hin. apply (count_occ_In string_dec) in Hin.
    rewrite Hcount in Hin.
    destruct (JsMap.has (indexByName (elements newMetadata)) id) eqn:EN.
    + right. apply HNk. now apply JsMapFacts.has_true_iff.
    + destruct (JsMap.has (indexByName (elements oldMetadata)) id) eqn:EO.
      * left. apply HOk. now apply JsMapFacts.has_true_iff.
      * lia.
  - unfold hasChanges.
    destruct (added (compare oldMetadata newMetadata));
      destruct (removed (compare oldMetadata newMetadata));
      destruct (modified (compare oldMetadata newMetadata)); simpl;
      split; intros H; try reflexivity; try discriminate;
      try (destruct H as [H|[H|H]]; congruence);
      try (left; discriminate);
      try (right; left; discriminate);
      try (right; right; discriminate).
Qed.

Lemma compare_partitions_identifiers_witness :
  count_occ string_dec
    (bucketIds (compare Samples.oldBatch Samples.newBatch)) "phoneInput" = 1.
Proof.
  apply (proj1 (compare_partitions_identifiers
                  Samples.oldBatch Samples.newBatch)).
  right. simpl. right. left. reflexivity.
Defined.

(** C7.  Let [id] be present in both batches, [oldEl] and [newEl] being the
    elements the differ indexes under it ([oldElements.get(id)] and
    [newElements.get(id)]).  Then [id] is classified modified if and only if
    the two locator expressions differ, and unchanged if and only if they are
    equal, whatever the strategy tags, categories and descriptors of the two
    elements are. *)
Theorem compare_modified_iff_locator_differs
    (oldMetadata newMetadata : PageObjectMetadata) (id : string)
    (oldEl newEl : AnalyzedElement) :
  JsMap.get (indexByName (elements oldMetadata)) id = Some oldEl ->
  JsMap.get (indexByName (elements newMetadata)) id = Some newEl ->
  (In id (modifiedIds (compare oldMetadata newMetadata)) <->
   locatorCode oldEl <> locatorCode newEl) /\
  (In id (unchangedIds (compare oldMetadata newMetadata)) <->
   locatorCode oldEl = locatorCode newEl) /\
  (locatorCode oldEl <> locatorCode newEl ->
   In {| old := oldEl; new := newEl |}
      (modified (compare oldMetadata newMetadata))) /\
  (locatorCode oldEl = locatorCode newEl ->
   In newEl (unchanged (compare oldMetadata newMetadata))).
Proof.
  intros HO HN.
  destruct (DiffFacts.indexByName_spec (elements oldMetadata))
    as (_ & HOkeyed & _).
  destruct (DiffFacts.indexByName_spec (elements newMetadata))
    as (_ & HNkeyed & _).
  assert (Hmod : locatorCode oldEl <> locatorCode newEl ->
                 In {| old := oldEl; new := newEl |}
                    (modified (compare oldMetadata newMetadata))).
  { intros Hd. apply DiffFacts.compare_modified. exists id. simpl. auto. }
  assert (Hunch : locatorCode oldEl = locatorCode newEl ->
                  In newEl (unchanged (compare oldMetadata newMetadata))).
  { intros He. apply DiffFacts.compare_unchanged. exists id, oldEl. auto. }
  split; [|split; [|split]]; auto.
  - split.
    + unfold modifiedIds. intros Hin. apply in_map_iff in Hin.
      destruct Hin as (p & Hname & Hin).
      apply DiffFacts.compare_modified in Hin.
      destruct Hin as (k & HgN & HgO & Hd).
      pose proof (DiffFacts.keyedByName_get _ _ _ HOkeyed HgO) as Hk.
      assert (Ek : k = id) by congruence. clear Hk. subst k.
      rewrite HO in HgO. rewrite HN in HgN.
      injection HgO as EO. injection HgN as EN. congruence.
    + intros Hd. unfold modifiedIds. apply in_map_iff.
      exists {| old := oldEl; new := newEl |}. simpl. split; [|auto].
      exact (DiffFacts.keyedByName_get _ _ _ HOkeyed HO).
  - split.
    + unfold unchangedIds. intros Hin. apply in_map_iff in Hin.
      destruct Hin as (e & Hname & Hin).
      apply DiffFacts.compare_unchanged in Hin.
      destruct Hin as (k & o & HgN & HgO & He).
      pose proof (DiffFacts.keyedByName_get _ _ _ HNkeyed HgN) as Hk.
      assert (Ek : k = id) by congruence. clear Hk. subst k.
      rewrite HO in HgO. rewrite HN in HgN.
      injection HgO as EO. injection HgN as EN. congruence.
    + intros He. unfold unchangedIds. apply in_map_iff.
      exists newEl. split; [|auto].
      exact (DiffFacts.keyedByName_get _ _ _ HNkeyed HN).
Qed.

(** An element that keeps its locator expression and changes its strategy
    tag and its category is reported unchanged. *)
Lemma compare_modified_iff_locator_differs_witness :
  In "emailInput"
     (unchangedIds (compare Samples.oldBatch Samples.sameLocatorBatch)) <->
  locatorCode Samples.emailA = locatorCode Samples.emailA'.
Proof.
  apply (compare_modified_iff_locator_differs
           Samples.oldBatch Samples.sameLocatorBatch "emailInput"
           Samples.emailA Samples.emailA'); reflexivity.
Defined.

(** With pairwise-unique identifiers the indexed element is the element of
    the batch that bears the identifier. *)
Corollary compare_same_name_elements
    (oldMetadata newMetadata : PageObjectMetadata)
    (oldEl newEl : AnalyzedElement) :
  NoDup (map name (elements oldMetadata)) ->
  NoDup (map name (elements newMetadata)) ->
  In oldEl (elements oldMetadata) -> In newEl (elements newMetadata) ->
  name oldEl = name newEl ->
  (In {| old := oldEl; new := newEl |}
      (modified (compare oldMetadata newMetadata)) <->
   locatorCode oldEl <> locatorCode newEl) /\
  (In newEl (unchanged (compare oldMetadata newMetadata)) <->
   locatorCode oldEl = locatorCode newEl).
Proof.
  intros HndO HndN HinO HinN Hname.
  pose proof (DiffFacts.indexByName_get_unique _ _ HndO HinO) as HO.
  pose proof (DiffFacts.indexByName_get_unique _ _ HndN HinN) as HN.
  destruct (DiffFacts.indexByName_spec (elements newMetadata))
    as (_ & HNkeyed & _).
  split; split.
  - intros Hin. apply DiffFacts.compare_modified in Hin.
    destruct Hin as (k & _ & _ & Hd). exact Hd.
  - intros Hd. apply DiffFacts.compare_modified.
    exists (name newEl). simpl. rewrite <- Hname at 2. auto.
  - intros Hin. apply DiffFacts.compare_unchanged in Hin.
    destruct Hin as (k & o & HgN & HgO & He).
    pose proof (DiffFacts.keyedByName_get _ _ _ HNkeyed HgN) as Hk.
    subst k. rewrite <- Hname, HO in HgO. injection HgO as EO. congruence.
  - intros He. apply DiffFacts.compare_unchanged.
    exists (name newEl), oldEl. rewrite <- Hname at 2. auto.
Qed.

(** C10.  Swapping the arguments of [compare] exchanges [added] and
    [removed] (as lists, hence as sets of identifiers), exchanges the old and
    new components of every modified pair, and leaves the identifiers
    classified modified and those classified unchanged the same.  The
    statement holds for all batches, in particular for those whose
    identifiers are pairwise unique. *)
Theorem compare_swap (A B : PageObjectMetadata) :
  added (compare A B) = removed (compare B A) /\
  removed (compare A B) = added (compare B A) /\
  (forall o n,
      In {| old := o; new := n |} (modified (compare A B)) <->
      In {| old := n; new := o |} (modified (compare B A))) /\
  (forall id, In id (modifiedIds (compare A B)) <->
              In id (modifiedIds (compare B A))) /\
  (forall id, In id (unchangedIds (compare A B)) <->
              In id (unchangedIds (compare B A))).
Proof.
  destruct (DiffFacts.indexByName_spec (elements A)) as (_ & HA & _).
  destruct (DiffFacts.indexByName_spec (elements B)) as (_ & HB & _).
  assert (Hpairs : forall X Y o n,
    In {| old := o; new := n |} (modified (compare X Y)) ->
    In {| old := n; new := o |} (modified (compare Y X))).
  { intros X Y o n Hin. apply DiffFacts.compare_modified in Hin.
    destruct Hin as (k & HgY & HgX & Hd). simpl in *.
    apply DiffFacts.compare_modified. exists k. simpl. auto. }
  assert (Hmods : forall X Y id,
    Forall keyedByName (indexByName (elements X)) ->
    Forall keyedByName (indexByName (elements Y)) ->
    In id (modifiedIds (compare X Y)) -> In id (modifiedIds (compare Y X))).
  { intros X Y id HX HY Hin. unfold modifiedIds in *.
    apply in_map_iff in Hin. destruct Hin as ([o n] & Hname & Hin).
    simpl in Hname.
    pose proof Hin as Hin'. apply DiffFacts.compare_modified in Hin'.
    destruct Hin' as (k & HgY & HgX & _). simpl in *.
    apply in_map_iff. exists {| old := n; new := o |}. simpl.
    split; [|now apply Hpairs].
    rewrite (DiffFacts.keyedByName_get _ _ _ HY HgY).
    rewrite <- (DiffFacts.keyedByName_get _ _ _ HX HgX). exact Hname. }
  assert (Hunch : forall X Y id,
    Forall keyedByName (indexByName (elements X)) ->
    Forall keyedByName (indexByName (elements Y)) ->
    In id (unchangedIds (compare X Y)) -> In id (unchangedIds (compare Y X))).
  { intros X Y id HX HY Hin. unfold unchangedIds in *.
    apply in_map_iff in Hin. destruct Hin as (e & Hname & Hin).
    apply DiffFacts.compare_unchanged in Hin.
    destruct Hin as (k & o & HgY & HgX & He).
    apply in_map_iff. exists o. split.
    - rewrite (DiffFacts.keyedByName_get _ _ _ HX HgX).
      rewrite <- (DiffFacts.keyedByName_get _ _ _ HY HgY). exact Hname.
    - apply DiffFacts.compare_unchanged. exists k, e. auto. }
  split; [|split; [|split; [|split]]].
  - now rewrite DiffFacts.compare_added, DiffFacts.compare_removed.
  - now rewrite DiffFacts.compare_added, DiffFacts.compare_removed.
  - intros o n. split; apply Hpairs.
  - intros id. split; apply Hmods; assumption.
  - intros id. split; apply Hunch; assumption.
Qed.

(* ================================================================= *)
(** ** The deduplicator *)

Module DedupFacts.
Import JsMap JsMapFacts.

Lemma numberToString_inj a b : numberToString a = numberToString b -> a = b.
Proof.
  unfold numberToString. intros H.
  apply (f_equal NilEmpty.uint_of_string) in H.
  rewrite !NilEmpty.usu in H. injection H as H.
  now apply Unsigned.to_uint_inj.
Qed.

Lemma append_inj_l (base a b : string) : base ++ a = base ++ b -> a = b.
Proof.
  induction base as [|c base IH]; simpl; intros H; [exact H|].
  injection H as H. auto.
Qed.

Lemma candidate_inj base a b :
  base ++ numberToString a = base ++ numberToString b -> a = b.
Proof. intros H. apply numberToString_inj. now apply append_inj_l in H. Qed.

Lemma NoDup_candidates base start len :
  NoDup (map (fun c => base ++ numberToString c) (seq start len)).
Proof.
  revert start. induction len as [|len IH]; intros start; simpl.
  - constructor.
  - constructor; [|apply IH].
    intros Hin. apply in_map_iff in Hin. destruct Hin as (c & Hc & Hin).
    apply candidate_inj in Hc. apply in_seq in Hin. lia.
Qed.

Section Probe.
Variable seen : JsMap.t AnalyzedElement.
Variable base : string.

Lemma probe_Some fuel counter n :
  probe fuel seen base counter = Some n ->
  counter <= n /\
  has seen (base ++ numberToString n) = false /\
  forall c, counter <= c < n -> has seen (base ++ numberToString c) = true.
Proof.
  revert counter. induction fuel as [|fuel IH]; intros counter; simpl.
  - discriminate.
  - destruct (has seen (base ++ numberToString counter)) eqn:E.
    + intros H. apply IH in H. destruct H as (H1 & H2 & H3).
      split; [lia|]. split; [exact H2|].
      intros c Hc. destruct (Nat.eq_dec c counter) as [->|Hne];
        [exact E | apply H3; lia].
    + intros [= <-]. split; [lia|]. split; [exact E|]. intros c Hc. lia.
Qed.

Lemma probe_None fuel counter :
  probe fuel seen base counter = None ->
  forall c, counter <= c < counter + fuel ->
            has seen (base ++ numberToString c) = true.
Proof.
  revert counter. induction fuel as [|fuel IH]; intros counter; simpl.
  - intros _ c Hc. lia.
  - destruct (has seen (base ++ numberToString counter)) eqn:E;
      [|discriminate].
    intros H c Hc. destruct (Nat.eq_dec c counter) as [->|Hne];
      [exact E | apply (IH _ H); lia].
Qed.

(** The loop ends: more probes than keys cannot all hit a key. *)
Lemma probe_total fuel counter :
  size seen < fuel -> exists n, probe fuel seen base counter = Some n.
Proof.
  intros Hfuel.
  destruct (probe fuel seen base counter) as [n|] eqn:E; [now exists n|].
  exfalso.
  pose proof (probe_None _ _ E) as Hall.
  assert (Hincl : incl (map (fun c => base ++ numberToString c)
                          (seq counter fuel)) (keys seen)).
  { intros k Hin. apply in_map_iff in Hin. destruct Hin as (c & <- & Hin).
    apply in_seq in Hin. apply has_true_iff. apply Hall. lia. }
  apply NoDup_incl_length in Hincl; [|apply NoDup_candidates].
  rewrite length_map, length_seq in Hincl.
  unfold keys, size in *. rewrite length_map in Hincl. lia.
Qed.
End Probe.

(** One iteration appends one entry, keyed by the name of its element. *)
Lemma dedupStep_spec (seen : JsMap.t AnalyzedElement) element :
  exists element',
    dedupStep seen element
    = Some (seen ++ [(name element', element')])%list /\
    renamedAgainst (keys seen) element element'.
Proof.
  unfold dedupStep.
  destruct (has seen (name element)) eqn:E; cbn [negb].
  - destruct (probe_total seen (name element) (S (size seen)) 2) as (n & Hn);
      [lia|].
    rewrite Hn. apply probe_Some in Hn. destruct Hn as (H1 & H2 & H3).
    exists (withName element (name element ++ numberToString n)).
    split.
    + now rewrite set_absent by exact H2.
    + unfold renamedAgainst. simpl. split; [reflexivity|].
      split; [now apply has_false_iff|].
      split.
      * intros Hnot. apply has_true_iff in E. contradiction.
      * intros _. exists n. split; [exact H1|]. split; [reflexivity|].
        intros c Hc. apply has_true_iff. now apply H3.
  - exists element. split.
    + now rewrite set_absent by exact E.
    + unfold renamedAgainst. split; [now destruct element|].
      split; [now apply has_false_iff|].
      split; [reflexivity|].
      intros Hin. apply has_false_iff in E. contradiction.
Qed.

Lemma dedupLoop_spec (elements : list AnalyzedElement) :
  forall seen : JsMap.t AnalyzedElement,
    NoDup (keys seen) ->
    exists outs,
      dedupLoop seen elements
      = Some (seen ++ map (fun e => (name e, e)) outs)%list /\
      NoDup (keys seen ++ map name outs) /\
      Forall2 (fun e e' => e' = withName e (name e')) elements outs /\
      forall i element,
        nth_error elements i = Some element ->
        exists element',
          nth_error outs i = Some element' /\
          renamedAgainst (keys seen ++ map name (firstn i outs))%list
            element element'.
Proof.
  induction elements as [|e rest IH]; intros seen Hnd.
  - exists []. simpl. rewrite !app_nil_r. split; [reflexivity|].
    split; [exact Hnd|]. split; [constructor|].
    intros [|i] element; discriminate.
  - destruct (dedupStep_spec seen e) as (e' & Hstep & Hren).
    cbn [dedupLoop]. rewrite Hstep.
    assert (Hnd1 : NoDup (keys (seen ++ [(name e', e')])%list)).
    { unfold keys in *. rewrite map_app. simpl.
      apply NoDup_app; [exact Hnd | repeat constructor; intros [] |].
      intros a Ha [<-|[]]. destruct Hren as (_ & Hfresh & _).
      now apply Hfresh. }
    destruct (IH _ Hnd1) as (outs & Hloop & Hnd' & Hlen & Hnth).
    exists (e' :: outs).
    assert (Hkeys : forall l,
               (keys (seen ++ [(name e', e')]) ++ l
                = keys seen ++ name e' :: l)%list).
    { intros l. unfold keys. rewrite map_app, <- app_assoc. reflexivity. }
    split; [|split; [|split]].
    + rewrite Hloop, <- app_assoc. reflexivity.
    + simpl. rewrite <- Hkeys. exact Hnd'.
    + constructor; [apply Hren | exact Hlen].
    + intros [|i] element Hi; simpl in Hi.
      * injection Hi as <-. exists e'. split; [reflexivity|].
        simpl. now rewrite app_nil_r.
      * destruct (Hnth i element Hi) as (element' & Hn & Hr).
        exists element'. split; [exact Hn|].
        simpl. rewrite <- Hkeys. exact Hr.
Qed.

End DedupFacts.

(** *** Claims about the deduplicator *)


(** C4, as stated, fails: the third element is the first that bears the
    name [a2], and it is renamed, because renaming the second element took
    that name. *)
Lemma first_bearer_of_a_name_renamed :
  ~ In (name DedupSamples.b)
       (map name [DedupSamples.a1; DedupSamples.a2]) /\
  deduplicateElements [DedupSamples.a1; DedupSamples.a2; DedupSamples.b]
  = Some [DedupSamples.a1;
          withName DedupSamples.a2 "a2";
          withName DedupSamples.b "a22"].
Proof.
  split; [|reflexivity].
  simpl. intros [H|[H|[]]]; discriminate.
Qed.

(** C4, amended.  Deduplication returns, for every input sequence, one
    element per input element, in the order of the input, each differing from
    its input element in the name at most, and the identifiers returned are
    pairwise distinct.  An element whose name is not among the identifiers
    emitted for the elements before it is returned as it is; an element whose
    name is among them is renamed to its name followed by [n], for the least
    [n >= 2] whose candidate is not among them. *)
Theorem deduplicateElements_spec (elements : list AnalyzedElement) :
  exists outs,
    deduplicateElements elements = Some outs /\
    NoDup (map name outs) /\
    Forall2 (fun e e' => e' = withName e (name e')) elements outs /\
    forall i element,
      nth_error elements i = Some element ->
      exists element',
        nth_error outs i = Some element' /\
        renamedAgainst (map name (firstn i outs)) element element'.
Proof.
  destruct (DedupFacts.dedupLoop_spec elements JsMap.empty)
    as (outs & Hloop & Hnd & Hall & Hnth); [constructor|].
  exists outs. unfold deduplicateElements. rewrite Hloop. simpl.
  split; [|split; [exact Hnd | split; [exact Hall | exact Hnth]]].
  unfold JsMap.values. rewrite map_map. simpl. now rewrite map_id.
Qed.

Lemma deduplicateElements_spec_witness :
  exists outs,
    deduplicateElements [DedupSamples.a1; DedupSamples.a2] = Some outs /\
    NoDup (map name outs).
Proof.
  destruct (deduplicateElements_spec [DedupSamples.a1; DedupSamples.a2])
    as (outs & H1 & H2 & _).
  exists outs. split; [exact H1 | exact H2].
Defined.

(* ================================================================= *)
(** ** The locator resolver and the name resolver *)


Module ResolverFacts.

Lemma truthyValue_Some o s :
  truthyValue o = Some s <-> o = Some s /\ s <> "".
Proof.
  unfold truthyValue, nonEmpty. destruct o as [x|].
  - destruct (String.eqb_spec x ""); simpl; split.
    + discriminate.
    + intros [[= ->] H]. contradiction.
    + intros [= ->]. auto.
    + intros [[= ->] _]. reflexivity.
  - split; [discriminate | intros [H _]; discriminate].
Qed.

Lemma truthyValue_None o : truthyValue o = None <-> truthy o = false.
Proof.
  unfold truthyValue, truthy, nonEmpty. destruct o as [x|]; [|tauto].
  destruct (x =? ""); simpl; split; congruence.
Qed.

Lemma truthy_truthyValue o :
  truthy o = true <-> exists s, truthyValue o = Some s.
Proof.
  unfold truthyValue, truthy, nonEmpty. destruct o as [x|].
  - destruct (x =? ""); simpl; split; try discriminate.
    + intros (s & H). discriminate.
    + intros _. now exists x.
    + reflexivity.
  - split; [discriminate | intros (s & H); discriminate].
Qed.

Lemma nonEmpty_true s : nonEmpty s = true <-> s <> "".
Proof.
  unfold nonEmpty. destruct (String.eqb_spec s ""); simpl; split; congruence.
Qed.

(** Every strategy that applies produces a non-empty expression. *)
Lemma tryGenerateLocator_nonempty info elementType role_ locatorType_ r :
  tryGenerateLocator info elementType role_ locatorType_ = Some r ->
  resultCode r <> "".
Proof.
  unfold tryGenerateLocator, roleLocator. intros H.
  repeat match type of H with
         | context [match ?x with _ => _ end] => destruct x
         end;
    try discriminate; injection H as <-; simpl; discriminate.
Qed.

Lemma firstLocator_nonempty info elementType role_ priority r :
  firstLocator info elementType role_ priority = Some r ->
  resultCode r <> "".
Proof.
  induction priority as [|lt rest IH]; simpl; [discriminate|].
  destruct (tryGenerateLocator info elementType role_ lt) eqn:E.
  - intros [= <-]. eapply tryGenerateLocator_nonempty; eauto.
  - exact IH.
Qed.

Lemma firstLocator_None info elementType role_ priority :
  firstLocator info elementType role_ priority = None <->
  Forall (fun lt => tryGenerateLocator info elementType role_ lt = None)
    priority.
Proof.
  induction priority as [|lt rest IH]; simpl.
  - split; [constructor | reflexivity].
  - destruct (tryGenerateLocator info elementType role_ lt) eqn:E.
    + split; [discriminate|]. intros H. inversion H; congruence.
    + rewrite IH. split; [now constructor | intros H; now inversion H].
Qed.

End ResolverFacts.

(** C5.  For every descriptor, category and configuration, [generateLocator]
    returns a non-empty locator expression; when no strategy of the
    configured priority list applies it returns the bare tag-name selector;
    this is the case of the descriptor whose optional fields are all
    [null]. *)
Theorem generateLocator_total (cfg : GeneratorConfig) (info : ElementInfo)
    (elementType : ElementType) :
  resultCode (generateLocator cfg info elementType) <> "" /\
  (Forall (fun lt => tryGenerateLocator info elementType
                       (roleMap elementType) lt = None)
     (locatorPriority cfg) ->
   generateLocator cfg info elementType
   = {| resultCode := "locator('" ++ tagName info ++ "')";
        resultType := locator |}) /\
  (forall tag,
      generateLocator cfg (Samples.noInfo tag) elementType
      = {| resultCode := "locator('" ++ tag ++ "')";
           resultType := locator |}).
Proof.
  split; [|split].
  - unfold generateLocator.
    destruct (firstLocator info elementType (roleMap elementType)
                (locatorPriority cfg)) eqn:E.
    + eapply ResolverFacts.firstLocator_nonempty; eauto.
    + simpl. discriminate.
  - intros Hall. apply ResolverFacts.firstLocator_None in Hall.
    unfold generateLocator. now rewrite Hall.
  - intros tag. unfold generateLocator.
    replace (firstLocator (Samples.noInfo tag) elementType
               (roleMap elementType) (locatorPriority cfg)) with
      (@None LocatorResult); [reflexivity|].
    symmetry. apply ResolverFacts.firstLocator_None.
    apply Forall_forall. intros lt _.
    destruct lt; simpl; try reflexivity.
    now destruct (nonEmpty (roleMap elementType)).
Qed.

Lemma generateLocator_total_witness :
  generateLocator DEFAULT_CONFIG (Samples.noInfo "div") other
  = {| resultCode := "locator('div')"; resultType := locator |}.
Proof.
  apply (proj1 (proj2 (generateLocator_total
                         DEFAULT_CONFIG (Samples.noInfo "div") other))).
  repeat constructor.
Defined.

(** C9, as stated, fails: with the empty priority list a user can supply,
    resolution returns the bare tag-name selector. *)
Lemma empty_priority_list_is_not_rejected :
  locatorPriority ResolverSamples.emptyPriorityConfig = [] /\
  resolveLocator ResolverSamples.emptyPriorityConfig
    (ResolverSamples.loginDescriptor "button") button
  = Returned {| resultCode := "locator('button')"; resultType := locator |}.
Proof. split; reflexivity. Qed.

(** C9, amended.  If the configured priority list is empty, locator
    resolution raises no error: it returns the bare tag-name selector with
    the strategy tag [locator]. *)
Theorem empty_priority_list_falls_back (cfg : GeneratorConfig)
    (info : ElementInfo) (elementType : ElementType) :
  locatorPriority cfg = [] ->
  resolveLocator cfg info elementType
  = Returned {| resultCode := "locator('" ++ tagName info ++ "')";
                resultType := locator |} /\
  forall message, resolveLocator cfg info elementType <> Thrown message.
Proof.
  intros Hempty. unfold resolveLocator, generateLocator.
  rewrite Hempty. simpl. split; [reflexivity | discriminate].
Qed.

Lemma empty_priority_list_falls_back_witness :
  resolveLocator ResolverSamples.emptyPriorityConfig
    (Samples.noInfo "span") link
  = Returned {| resultCode := "locator('span')"; resultType := locator |} /\
  forall message,
    resolveLocator ResolverSamples.emptyPriorityConfig
      (Samples.noInfo "span") link <> Thrown message.
Proof.
  apply (empty_priority_list_falls_back
           ResolverSamples.emptyPriorityConfig (Samples.noInfo "span") link).
  reflexivity.
Defined.

(** C3, as stated, fails: the identifier is not [loginButton]. *)
Lemma login_identifier_is_not_loginButton :
  generateElementName DEFAULT_CONFIG
    (ResolverSamples.loginDescriptor "button") button <> "loginButton".
Proof. vm_compute. discriminate. Qed.

(** C3, amended.  For the descriptor with aria-label [Log in] and role
    [button], category button, under the default configuration, the resolver
    chooses the role+name strategy with the expression
    [getByRole('button', { name: 'Log in' })], and the identifier is
    [logInButton]: the second word of the aria-label is capitalised. *)
Theorem login_scenario (tag : string) :
  generateLocator DEFAULT_CONFIG (ResolverSamples.loginDescriptor tag) button
  = {| resultCode := "getByRole('button', { name: 'Log in' })";
       resultType := getByRole |} /\
  generateElementName DEFAULT_CONFIG (ResolverSamples.loginDescriptor tag)
    button = "logInButton".
Proof. split; reflexivity. Qed.

(** C2, as stated, fails: for a button without aria-label whose visible text
    has 51 characters the role+name strategy applies, with the first 50
    characters as the name. *)
Lemma role_strategy_applies_to_long_text :
  ariaLabel ResolverSamples.longTextButton = None /\
  text ResolverSamples.longTextButton = Some ResolverSamples.longText /\
  String.length ResolverSamples.longText = 51 /\
  tryGenerateLocator ResolverSamples.longTextButton button (roleMap button)
    getByRole
  = Some {| resultCode :=
              "getByRole('button', { name: 'Subscribe to our weekly newsletter and product new' })";
            resultType := getByRole |}.
Proof. repeat split. Qed.

(** C2, amended.  The role+name strategy applies exactly when the category
    maps to a role (every category but [other]) and either a non-empty
    aria-label is present or, for the button, link and heading categories, a
    non-empty visible text of any length is present.  It produces the role
    token and the escaped name: the aria-label when there is one, otherwise
    the first 50 characters of the visible text. *)
Theorem role_strategy_applicability (info : ElementInfo)
    (elementType : ElementType) :
  (tryGenerateLocator info elementType (roleMap elementType) getByRole
   <> None <->
   roleMap elementType <> "" /\
   (truthy (ariaLabel info) = true \/
    (namedByText elementType = true /\ truthy (text info) = true))) /\
  (forall aria,
      roleMap elementType <> "" ->
      ariaLabel info = Some aria -> aria <> "" ->
      tryGenerateLocator info elementType (roleMap elementType) getByRole
      = Some {| resultCode :=
                  "getByRole('" ++ roleMap elementType ++ "', { name: '"
                  ++ escapeString aria ++ "' })";
                resultType := getByRole |}) /\
  (forall txt,
      truthy (ariaLabel info) = false ->
      namedByText elementType = true ->
      text info = Some txt -> txt <> "" ->
      tryGenerateLocator info elementType (roleMap elementType) getByRole
      = Some {| resultCode :=
                  "getByRole('" ++ roleMap elementType ++ "', { name: '"
                  ++ escapeString (substring 0 50 txt) ++ "' })";
                resultType := getByRole |}).
Proof.
  split; [|split].
  - unfold tryGenerateLocator.
    destruct (nonEmpty (roleMap elementType)) eqn:Erole.
    + pose proof (proj1 (ResolverFacts.nonEmpty_true _) Erole) as Hrole.
      destruct (truthyValue (ariaLabel info)) as [aria|] eqn:Ea.
      * split; [|discriminate]. intros _. split; [exact Hrole|]. left.
        apply ResolverFacts.truthy_truthyValue. now exists aria.
      * apply ResolverFacts.truthyValue_None in Ea.
        destruct (truthyValue (text info)) as [txt|] eqn:Et.
        -- assert (Ht : truthy (text info) = true)
             by (apply ResolverFacts.truthy_truthyValue; now exists txt).
           destruct (namedByText elementType).
           ++ split; [|discriminate]. intros _. split; [exact Hrole|].
              right. auto.
           ++ split; [congruence|]. intros (_ & [H|[H _]]); congruence.
        -- apply ResolverFacts.truthyValue_None in Et.
           split; [congruence|]. intros (_ & [H|[_ H]]); congruence.
    + split; [congruence|]. intros (Hrole & _).
      apply ResolverFacts.nonEmpty_true in Hrole. congruence.
  - intros aria Hrole Haria Hne. unfold tryGenerateLocator.
    rewrite (proj2 (ResolverFacts.nonEmpty_true _) Hrole).
    rewrite (proj2 (ResolverFacts.truthyValue_Some _ _) (conj Haria Hne)).
    reflexivity.
  - intros txt Haria Hnamed Htext Hne. unfold tryGenerateLocator.
    assert (Hrole : nonEmpty (roleMap elementType) = true)
      by (destruct elementType; try discriminate; reflexivity).
    rewrite Hrole.
    rewrite (proj2 (ResolverFacts.truthyValue_None _) Haria).
    rewrite (proj2 (ResolverFacts.truthyValue_Some _ _) (conj Htext Hne)).
    rewrite Hnamed. reflexivity.
Qed.

Lemma role_strategy_applicability_witness :
  tryGenerateLocator ResolverSamples.longTextButton button (roleMap button)
    getByRole
  = Some {| resultCode :=
              "getByRole('" ++ roleMap button ++ "', { name: '"
              ++ escapeString (substring 0 50 ResolverSamples.longText)
              ++ "' })";
            resultType := getByRole |}.
Proof.
  apply (proj2 (proj2 (role_strategy_applicability
                         ResolverSamples.longTextButton button))
           ResolverSamples.longText).
  - reflexivity.
  - reflexivity.
  - reflexivity.
  - discriminate.
Defined.

(** *** Escaping *)

Module EscapeFacts.

Lemma whiteSpace_not_backslash c :
  isWhiteSpace c = true -> Ascii.eqb c BACKSLASH = false.
Proof.
  destruct (Ascii.eqb_spec c BACKSLASH) as [->|]; [discriminate | reflexivity].
Qed.

Lemma hasChar_trimStart c s :
  hasChar c s = false -> hasChar c (trimStart s) = false.
Proof.
  induction s as [|x r IH]; simpl; [reflexivity|].
  intros H. apply orb_false_iff in H. destruct H as (Hx & Hr).
  destruct (isWhiteSpace x); [auto|]. simpl. now rewrite Hx, Hr.
Qed.

Lemma hasChar_trimEnd c s :
  hasChar c s = false -> hasChar c (trimEnd s) = false.
Proof.
  induction s as [|x r IH]; simpl; [reflexivity|].
  intros H. apply orb_false_iff in H. destruct H as (Hx & Hr).
  destruct (isWhiteSpace x && (trimEnd r =? "")); [reflexivity|].
  simpl. rewrite Hx. simpl. auto.
Qed.

Lemma hasChar_replace_LF s : hasChar LF (replaceAllChar LF " " s) = false.
Proof.
  induction s as [|x r IH]; simpl; [reflexivity|].
  destruct (Ascii.eqb x LF) eqn:E; simpl; [exact IH|].
  now rewrite E.
Qed.

(** The escaped string holds no line feed. *)
Lemma escapeString_no_line_feed s : hasChar LF (escapeString s) = false.
Proof.
  unfold escapeString, trim.
  apply hasChar_trimEnd, hasChar_trimStart, hasChar_replace_LF.
Qed.

Lemma quotes_replace_QUOTE s b :
  quotesFollowBackslash b (replaceAllChar QUOTE "\'" s) = true.
Proof.
  revert b. induction s as [|x r IH]; intros b; simpl; [reflexivity|].
  destruct (Ascii.eqb x QUOTE) eqn:E; simpl.
  - apply IH.
  - rewrite E. simpl. apply IH.
Qed.

Lemma quotes_replace_LF s b :
  quotesFollowBackslash b s = true ->
  quotesFollowBackslash b (replaceAllChar LF " " s) = true.
Proof.
  revert b. induction s as [|x r IH]; intros b; simpl; [reflexivity|].
  intros H. apply andb_true_iff in H. destruct H as (Hx & Hr).
  destruct (Ascii.eqb_spec x LF) as [->|Hne]; simpl.
  - apply IH. exact Hr.
  - rewrite Hx. simpl. apply IH. exact Hr.
Qed.

Lemma quotes_trimStart s :
  quotesFollowBackslash false s = true ->
  quotesFollowBackslash false (trimStart s) = true.
Proof.
  induction s as [|x r IH]; simpl; [reflexivity|].
  intros H. destruct (isWhiteSpace x) eqn:Ews; [|exact H].
  apply andb_true_iff in H. destruct H as (_ & Hr).
  rewrite (whiteSpace_not_backslash _ Ews) in Hr. auto.
Qed.

Lemma quotes_trimEnd s b :
  quotesFollowBackslash b s = true ->
  quotesFollowBackslash b (trimEnd s) = true.
Proof.
  revert b. induction s as [|x r IH]; intros b; simpl; [reflexivity|].
  intros H. apply andb_true_iff in H. destruct H as (Hx & Hr).
  destruct (isWhiteSpace x && (trimEnd r =? "")); [reflexivity|].
  simpl. rewrite Hx. simpl. auto.
Qed.

(** Every single quote of the escaped string comes immediately after a
    backslash. *)
Lemma escapeString_quotes_follow_backslash s :
  quotesFollowBackslash false (escapeString s) = true.
Proof.
  unfold escapeString, trim.
  apply quotes_trimEnd, quotes_trimStart, quotes_replace_LF,
    quotes_replace_QUOTE.
Qed.

Lemma whiteSpace_not_quote c :
  isWhiteSpace c = true -> Ascii.eqb c QUOTE = false.
Proof.
  destruct (Ascii.eqb_spec c QUOTE) as [->|]; [discriminate | reflexivity].
Qed.

Lemma escapedPairs_no_raw_quote s b :
  escapedPairs b s = true -> rawQuoteFrom b s = false.
Proof.
  revert b. induction s as [|c r IH]; intros b; simpl; [reflexivity|].
  destruct b.
  - intros H. apply andb_true_iff in H. destruct H as (_ & Hr). auto.
  - destruct (Ascii.eqb c BACKSLASH); [apply IH|].
    intros H. apply andb_true_iff in H. destruct H as (Hc & Hr).
    apply negb_true_iff in Hc. rewrite Hc. auto.
Qed.

Lemma pairs_replace_QUOTE s :
  hasChar BACKSLASH s = false ->
  escapedPairs false (replaceAllChar QUOTE "\'" s) = true.
Proof.
  induction s as [|c r IH]; simpl; [reflexivity|].
  intros H. apply orb_false_iff in H. destruct H as (Hc & Hr).
  destruct (Ascii.eqb c QUOTE) eqn:E; simpl.
  - auto.
  - rewrite Hc, E. simpl. auto.
Qed.

Lemma pairs_replace_LF s b :
  escapedPairs b s = true ->
  escapedPairs b (replaceAllChar LF " " s) = true.
Proof.
  revert b. induction s as [|c r IH]; intros b; simpl; [trivial|].
  destruct (Ascii.eqb_spec c LF) as [->|Hne]; simpl.
  - destruct b; simpl; [discriminate | apply IH].
  - destruct b.
    + intros H. apply andb_true_iff in H. destruct H as (Hc & Hr).
      rewrite Hc. simpl. auto.
    + destruct (Ascii.eqb c BACKSLASH); [apply IH|].
      intros H. apply andb_true_iff in H. destruct H as (Hc & Hr).
      rewrite Hc. simpl. auto.
Qed.

Lemma pairs_trimStart s :
  escapedPairs false s = true -> escapedPairs false (trimStart s) = true.
Proof.
  induction s as [|c r IH]; simpl; [trivial|].
  destruct (isWhiteSpace c) eqn:Ews; [|trivial].
  rewrite (whiteSpace_not_backslash _ Ews).
  intros H. apply andb_true_iff in H. destruct H as (_ & Hr). auto.
Qed.

Lemma pairs_trimEnd s b :
  escapedPairs b s = true -> escapedPairs b (trimEnd s) = true.
Proof.
  revert b. induction s as [|c r IH]; intros b; simpl; [trivial|].
  destruct (isWhiteSpace c) eqn:Ews; simpl.
  - rewrite (whiteSpace_not_backslash _ Ews), (whiteSpace_not_quote _ Ews).
    destruct b; simpl; [discriminate|].
    intros H. apply IH in H.
    destruct (trimEnd r =? ""); simpl; [reflexivity|].
    rewrite (whiteSpace_not_backslash _ Ews), (whiteSpace_not_quote _ Ews).
    exact H.
  - destruct b.
    + intros H. apply andb_true_iff in H. destruct H as (Hc & Hr).
      rewrite Hc. simpl. auto.
    + destruct (Ascii.eqb c BACKSLASH); [apply IH|].
      intros H. apply andb_true_iff in H. destruct H as (Hc & Hr).
      rewrite Hc. simpl. auto.
Qed.

(** On an input without backslash the escaped string holds no raw quote. *)
Lemma escapeString_safe_without_backslash s :
  hasChar BACKSLASH s = false -> hasRawQuote (escapeString s) = false.
Proof.
  intros H. unfold hasRawQuote, escapeString, trim.
  apply escapedPairs_no_raw_quote, pairs_trimEnd, pairs_trimStart,
    pairs_replace_LF, pairs_replace_QUOTE, H.
Qed.

End EscapeFacts.


(** C6 says that for every input holding a single quote and a line feed the
    escaped string holds no raw single quote and no line feed.  It fails at
    the input backslash, quote, line feed: [escapeString] returns two
    backslashes and a quote.  The backslash put before the quote escapes
    nothing, because the backslash of the input now escapes it, and the
    quote is raw.  ([EscapeFacts.escapeString_no_line_feed] proves the half
    about the line feed, and
    [EscapeFacts.escapeString_safe_without_backslash] the half about the
    quote for the inputs without backslash.) *)
Theorem escapeString_leaves_raw_quote :
  hasChar QUOTE EscapeSamples.backslashQuote = true /\
  hasChar LF EscapeSamples.backslashQuote = true /\
  escapeString EscapeSamples.backslashQuote
  = String BACKSLASH (String BACKSLASH (String QUOTE "")) /\
  hasRawQuote (escapeString EscapeSamples.backslashQuote) = true.
Proof. repeat split. Qed.

(* ================================================================= *)
(** ** The code synthesizer *)

Module TemplateFacts.

Lemma filter_filter_implied {A} (f g : A -> bool) (l : list A) :
  (forall x, f x = true -> g x = true) ->
  filter f (filter g l) = filter f l.
Proof.
  intros Himp. induction l as [|x l IH]; simpl; [reflexivity|].
  destruct (g x) eqn:Eg; simpl.
  - now rewrite IH.
  - destruct (f x) eqn:Ef; [|exact IH].
    apply Himp in Ef. congruence.
Qed.

(** No helper method is derived from an element of the other category. *)
Lemma generateHelperMethods_skips_other (elements : list AnalyzedElement) :
  generateHelperMethods elements
  = generateHelperMethods
      (filter (fun e => negb (isType other e)) elements).
Proof.
  unfold generateHelperMethods.
  rewrite !filter_filter_implied; [reflexivity | ..];
    intros e; unfold isType; destruct (elementType e); simpl; congruence.
Qed.

End TemplateFacts.

Module PipelineFacts.






End PipelineFacts.


(** The class emitted for a page with a log-in button and a heading. *)
Example generateFromPage_login_page :
  option_map fst
    (generateFromPage DEFAULT_CONFIG "2024-01-01T00:00:00.000Z" None
       "login" "https://example.test/" TemplateSamples.loginPageFound)
  = Some
"import { Page, Locator } from '@playwright/test';

export class LoginPage {
  readonly page: Page;
  readonly logInButton: Locator;
  readonly welcomeHeading: Locator;

  constructor(page: Page) {
    this.page = page;
    this.logInButton = page.getByRole('button', { name: 'Log in' });
    this.welcomeHeading = page.getByRole('heading', { name: 'Welcome' });
  }

  async goto(url: string): Promise<void> {
    await this.page.goto(url);
  }

  async clickLogin(): Promise<void> {
    await this.logInButton.click();
  }
}
".
Proof. reflexivity. Qed.

(* ================================================================= *)
(** * Further properties of the code *)

(** ** The differ: stability, counts, empty batches, reports *)

Module DiffMore.
Import JsMap JsMapFacts DiffFacts.

Lemma classifyNew_all_unchanged (oldElements : JsMap.t AnalyzedElement)
    entries d :
  (forall k v, In (k, v) entries ->
               exists o, get oldElements k = Some o /\
                         locatorCode o = locatorCode v) ->
  classifyNew oldElements entries d
  = {| added := added d; removed := removed d; modified := modified d;
       unchanged := (unchanged d ++ map snd entries)%list |}.
Proof.
  revert d. induction entries as [|[k n] rest IH]; intros d Hall.
  - simpl. rewrite app_nil_r. now destruct d.
  - destruct (Hall k n (or_introl eq_refl)) as (o & Hget & Hcode).
    cbn [classifyNew]. rewrite Hget, Hcode, String.eqb_refl. cbn [negb].
    rewrite IH by (intros k' v' Hin; apply (Hall k' v'); now right).
    simpl. now rewrite <- app_assoc.
Qed.

Lemma classifyNew_all_added (oldElements : JsMap.t AnalyzedElement)
    entries d :
  (forall k v, In (k, v) entries -> get oldElements k = None) ->
  classifyNew oldElements entries d
  = {| added := (added d ++ map snd entries)%list; removed := removed d;
       modified := modified d; unchanged := unchanged d |}.
Proof.
  revert d. induction entries as [|[k n] rest IH]; intros d Hall.
  - simpl. rewrite app_nil_r. now destruct d.
  - cbn [classifyNew]. rewrite (Hall k n (or_introl eq_refl)).
    rewrite IH by (intros k' v' Hin; apply (Hall k' v'); now right).
    simpl. now rewrite <- app_assoc.
Qed.

Lemma collectRemoved_all_present (newElements : JsMap.t AnalyzedElement)
    entries d :
  (forall k v, In (k, v) entries -> has newElements k = true) ->
  collectRemoved newElements entries d = d.
Proof.
  revert d. induction entries as [|[k o] rest IH]; intros d Hall.
  - reflexivity.
  - cbn [collectRemoved]. rewrite (Hall k o (or_introl eq_refl)).
    cbn [negb]. apply IH. intros k' v' Hin. apply (Hall k' v'). now right.
Qed.

Lemma collectRemoved_all_absent (newElements : JsMap.t AnalyzedElement)
    entries d :
  (forall k v, In (k, v) entries -> has newElements k = false) ->
  collectRemoved newElements entries d
  = {| added := added d; removed := (removed d ++ map snd entries)%list;
       modified := modified d; unchanged := unchanged d |}.
Proof.
  revert d. induction entries as [|[k o] rest IH]; intros d Hall.
  - simpl. rewrite app_nil_r. now destruct d.
  - cbn [collectRemoved]. rewrite (Hall k o (or_introl eq_refl)).
    cbn [negb].
    rewrite IH by (intros k' v' Hin; apply (Hall k' v'); now right).
    simpl. now rewrite <- app_assoc.
Qed.

Lemma values_indexByName_unique (els : list AnalyzedElement) :
  NoDup (map name els) -> values (indexByName els) = els.
Proof.
  intros Hnd. rewrite indexByName_unique by exact Hnd.
  unfold values. rewrite map_map. simpl. apply map_id.
Qed.

Lemma size_indexByName_unique (els : list AnalyzedElement) :
  NoDup (map name els) -> size (indexByName els) = List.length els.
Proof.
  intros Hnd. rewrite indexByName_unique by exact Hnd.
  unfold size. apply length_map.
Qed.

Lemma filter_split_length {A} (f : A -> bool) (l : list A) :
  List.length (filter f l) + List.length (filter (fun x => negb (f x)) l)
  = List.length l.
Proof.
  induction l as [|x l IH]; simpl; [reflexivity|].
  destruct (f x); simpl; lia.
Qed.

Lemma filter_keys {V} (f : string -> bool) (m : JsMap.t V) :
  map fst (filter (fun kv => f (fst kv)) m) = filter f (keys m).
Proof.
  induction m as [|[k v] m IH]; simpl; [reflexivity|].
  destruct (f k); simpl; now rewrite IH.
Qed.

(** Two maps have as many keys of the one in the other as of the other in
    the one. *)
Lemma common_keys_length {V} (m1 m2 : JsMap.t V) :
  NoDup (keys m1) -> NoDup (keys m2) ->
  List.length (filter (fun kv => has m2 (fst kv)) m1)
  = List.length (filter (fun kv => has m1 (fst kv)) m2).
Proof.
  intros H1 H2.
  rewrite <- (length_map fst (filter (fun kv => has m2 (fst kv)) m1)).
  rewrite <- (length_map fst (filter (fun kv => has m1 (fst kv)) m2)).
  rewrite (filter_keys (has m2) m1), (filter_keys (has m1) m2).
  apply Permutation_length, NoDup_Permutation;
    [now apply NoDup_filter | now apply NoDup_filter |].
  intros k. rewrite !filter_In, !has_true_iff. tauto.
Qed.

Section FirstLoopLengths.
Variable oldElements : JsMap.t AnalyzedElement.

Lemma classifyNew_matched_length entries d :
  List.length (modified (classifyNew oldElements entries d))
  + List.length (unchanged (classifyNew oldElements entries d))
  = List.length (modified d) + List.length (unchanged d)
    + List.length (filter (fun kv => has oldElements (fst kv)) entries).
Proof.
  revert d. induction entries as [|[k n] rest IH]; intros d.
  - simpl. lia.
  - cbn [classifyNew filter fst]. rewrite IH. unfold has.
    destruct (get oldElements k) as [o|]; simpl; [|lia].
    destruct (negb (locatorCode o =? locatorCode n)); simpl;
      rewrite length_app; simpl; lia.
Qed.
End FirstLoopLengths.

(** Two maps with the same keys in the same order and the same locator
    expressions under them. *)
Lemma set_same_locators (m1 m2 : JsMap.t AnalyzedElement) k v1 v2 :
  map (fun kv => (fst kv, locatorCode (snd kv))) m1
  = map (fun kv => (fst kv, locatorCode (snd kv))) m2 ->
  locatorCode v1 = locatorCode v2 ->
  map (fun kv => (fst kv, locatorCode (snd kv))) (set m1 k v1)
  = map (fun kv => (fst kv, locatorCode (snd kv))) (set m2 k v2).
Proof.
  revert m2. induction m1 as [|[k1 e1] m1 IH]; intros [|[k2 e2] m2] Hm Hv;
    simpl in *; try discriminate.
  - now rewrite Hv.
  - injection Hm as Hk Hc Hm. subst k2.
    destruct (k1 =? k); simpl.
    + now rewrite Hv, Hm.
    + rewrite Hc. f_equal. now apply IH.
Qed.

Lemma fold_set_same_locators (els1 els2 : list AnalyzedElement) :
  forall m1 m2 : JsMap.t AnalyzedElement,
    map (fun kv => (fst kv, locatorCode (snd kv))) m1
    = map (fun kv => (fst kv, locatorCode (snd kv))) m2 ->
    map (fun e => (name e, locatorCode e)) els1
    = map (fun e => (name e, locatorCode e)) els2 ->
    map (fun kv => (fst kv, locatorCode (snd kv)))
      (fold_left (fun m e => set m (fst e) (snd e))
         (map (fun e => (name e, e)) els1) m1)
    = map (fun kv => (fst kv, locatorCode (snd kv)))
        (fold_left (fun m e => set m (fst e) (snd e))
           (map (fun e => (name e, e)) els2) m2).
Proof.
  revert els2. induction els1 as [|e1 els1 IH]; intros [|e2 els2] m1 m2 Hm He;
    simpl in *; try discriminate; [exact Hm|].
  injection He as Hn Hc He. apply IH; [|exact He].
  rewrite Hn. now apply set_same_locators.
Qed.

Lemma indexByName_same_locators (els1 els2 : list AnalyzedElement) :
  map (fun e => (name e, locatorCode e)) els1
  = map (fun e => (name e, locatorCode e)) els2 ->
  map (fun kv => (fst kv, locatorCode (snd kv))) (indexByName els1)
  = map (fun kv => (fst kv, locatorCode (snd kv))) (indexByName els2).
Proof.
  intros He. unfold indexByName, ofEntries.
  now apply fold_set_same_locators.
Qed.

Lemma get_same_locators (m1 m2 : JsMap.t AnalyzedElement) k :
  map (fun kv => (fst kv, locatorCode (snd kv))) m1
  = map (fun kv => (fst kv, locatorCode (snd kv))) m2 ->
  option_map locatorCode (get m1 k) = option_map locatorCode (get m2 k).
Proof.
  revert m2. induction m1 as [|[k1 e1] m1 IH]; intros [|[k2 e2] m2] Hm;
    simpl in *; try discriminate; [reflexivity|].
  injection Hm as Hk Hc Hm. subst k2.
  destruct (k1 =? k); simpl; [now rewrite Hc | now apply IH].
Qed.

End DiffMore.

(** X1.  When the old and the new batch hold the same identifiers with the
    same locator expressions, in the same order, [compare] reports no change:
    [added], [removed] and [modified] are empty, every indexed element of
    the new batch is unchanged, and [hasChanges] is false.  The strategy
    tags, categories and descriptors of the elements are free to differ; a
    batch compared with itself is the particular case. *)
Theorem compare_same_locators (oldMetadata newMetadata : PageObjectMetadata) :
  map (fun e => (name e, locatorCode e)) (elements oldMetadata)
  = map (fun e => (name e, locatorCode e)) (elements newMetadata) ->
  compare oldMetadata newMetadata
  = {| added := []; removed := []; modified := [];
       unchanged := JsMap.values (indexByName (elements newMetadata)) |} /\
  hasChanges (compare oldMetadata newMetadata) = false.
Proof.
  intros He.
  pose proof (DiffMore.indexByName_same_locators _ _ He) as Hidx.
  destruct (DiffFacts.indexByName_spec (elements newMetadata))
    as (HNnd & _ & _).
  assert (Hcmp : compare oldMetadata newMetadata
                 = {| added := []; removed := []; modified := [];
                      unchanged :=
                        JsMap.values (indexByName (elements newMetadata)) |}).
  { unfold compare.
    rewrite (DiffMore.classifyNew_all_unchanged
               (indexByName (elements oldMetadata))
               (indexByName (elements newMetadata)) emptyDiff).
    - rewrite DiffMore.collectRemoved_all_present; [reflexivity|].
      intros k o Hin. apply JsMapFacts.get_Some_iff in Hin.
      + pose proof (DiffMore.get_same_locators _ _ k Hidx) as Hg.
        rewrite Hin in Hg. unfold JsMap.has.
        destruct (JsMap.get (indexByName (elements newMetadata)) k);
          [reflexivity | discriminate].
      + apply (DiffFacts.indexByName_spec (elements oldMetadata)).
    - intros k v Hin. apply JsMapFacts.get_Some_iff in Hin; [|exact HNnd].
      pose proof (DiffMore.get_same_locators _ _ k Hidx) as Hg.
      rewrite Hin in Hg.
      destruct (JsMap.get (indexByName (elements oldMetadata)) k) as [o|];
        [|discriminate].
      exists o. split; [reflexivity|]. simpl in Hg. congruence. }
  split; [exact Hcmp|]. now rewrite Hcmp.
Qed.

Lemma compare_same_locators_witness :
  hasChanges (compare Samples.oldBatch Samples.sameLocatorBatch) = false.
Proof.
  apply (compare_same_locators Samples.oldBatch Samples.sameLocatorBatch).
  reflexivity.
Defined.

(** X2.  [compare] files every distinct identifier once: the lengths of
    [added], [modified] and [unchanged] add up to the number of distinct
    identifiers of the new batch, those of [removed], [modified] and
    [unchanged] to the number of distinct identifiers of the old batch; with
    pairwise-unique identifiers these are the sizes of the batches. *)
Theorem compare_counts (oldMetadata newMetadata : PageObjectMetadata) :
  List.length (added (compare oldMetadata newMetadata))
  + List.length (modified (compare oldMetadata newMetadata))
  + List.length (unchanged (compare oldMetadata newMetadata))
  = JsMap.size (indexByName (elements newMetadata)) /\
  List.length (removed (compare oldMetadata newMetadata))
  + List.length (modified (compare oldMetadata newMetadata))
  + List.length (unchanged (compare oldMetadata newMetadata))
  = JsMap.size (indexByName (elements oldMetadata)) /\
  (NoDup (map name (elements newMetadata)) ->
   JsMap.size (indexByName (elements newMetadata))
   = List.length (elements newMetadata)) /\
  (NoDup (map name (elements oldMetadata)) ->
   JsMap.size (indexByName (elements oldMetadata))
   = List.length (elements oldMetadata)).
Proof.
  destruct (DiffFacts.indexByName_spec (elements oldMetadata))
    as (HOnd & _ & _).
  destruct (DiffFacts.indexByName_spec (elements newMetadata))
    as (HNnd & _ & _).
  set (O := indexByName (elements oldMetadata)) in *.
  set (N := indexByName (elements newMetadata)) in *.
  assert (Hmatched :
    List.length (modified (compare oldMetadata newMetadata))
    + List.length (unchanged (compare oldMetadata newMetadata))
    = List.length (filter (fun kv => JsMap.has O (fst kv)) N)).
  { unfold compare. fold O N.
    destruct (DiffFacts.collectRemoved_others N O (classifyNew O N emptyDiff))
      as (_ & -> & ->).
    rewrite DiffMore.classifyNew_matched_length. reflexivity. }
  split; [|split; [|split]].
  - rewrite DiffFacts.compare_added. fold O N. rewrite length_map.
    pose proof (DiffMore.filter_split_length
                  (fun kv : string * AnalyzedElement => JsMap.has O (fst kv)) N).
    unfold JsMap.size. lia.
  - rewrite DiffFacts.compare_removed. fold O N. rewrite length_map.
    pose proof (DiffMore.filter_split_length
                  (fun kv : string * AnalyzedElement => JsMap.has N (fst kv)) O).
    pose proof (DiffMore.common_keys_length O N HOnd HNnd).
    unfold JsMap.size. lia.
  - apply DiffMore.size_indexByName_unique.
  - apply DiffMore.size_indexByName_unique.
Qed.

Lemma compare_counts_witness :
  JsMap.size (indexByName (elements Samples.newBatch))
  = List.length (elements Samples.newBatch).
Proof.
  apply (proj1 (proj2 (proj2 (compare_counts
                                Samples.oldBatch Samples.newBatch)))).
  repeat constructor; simpl; intuition discriminate.
Defined.

(** X3.  Against an empty old batch every indexed element of the new batch
    is added and nothing else is reported; against an empty new batch every
    indexed element of the old batch is removed and nothing else is
    reported. *)
Theorem compare_empty_batch (oldMetadata newMetadata : PageObjectMetadata) :
  (elements oldMetadata = [] ->
   compare oldMetadata newMetadata
   = {| added := JsMap.values (indexByName (elements newMetadata));
        removed := []; modified := []; unchanged := [] |}) /\
  (elements newMetadata = [] ->
   compare oldMetadata newMetadata
   = {| added := [];
        removed := JsMap.values (indexByName (elements oldMetadata));
        modified := []; unchanged := [] |}).
Proof.
  split; intros Hempty; unfold compare; rewrite Hempty.
  - rewrite DiffMore.classifyNew_all_added by reflexivity. reflexivity.
  - simpl classifyNew.
    rewrite DiffMore.collectRemoved_all_absent by reflexivity. reflexivity.
Qed.

Lemma compare_empty_batch_witness :
  compare (metadataOf []) Samples.newBatch
  = {| added := JsMap.values (indexByName (elements Samples.newBatch));
       removed := []; modified := []; unchanged := [] |}.
Proof.
  apply (proj1 (compare_empty_batch (metadataOf []) Samples.newBatch)).
  reflexivity.
Defined.

Module ReportFacts.

Lemma bucketLines_nil (d : DiffResult) :
  hasChanges d = false -> bucketLines d = [].
Proof.
  unfold hasChanges, bucketLines. intros H.
  apply orb_false_iff in H. destruct H as (H & Hm).
  apply orb_false_iff in H. destruct H as (Ha & Hr).
  now rewrite Ha, Hr, Hm.
Qed.

Lemma bucketLines_cons (d : DiffResult) :
  hasChanges d = true -> exists line lines, bucketLines d = line :: lines.
Proof.
  unfold hasChanges, bucketLines. intros H.
  destruct (0 <? List.length (added d))%nat; [simpl; eauto|].
  destruct (0 <? List.length (removed d))%nat; [simpl; eauto|].
  destruct (0 <? List.length (modified d))%nat; [simpl; eauto|].
  discriminate.
Qed.

Lemma map_const_repeat {A B} (c : B) (l : list A) :
  map (fun _ => c) l = repeat c (List.length l).
Proof. induction l as [|x l IH]; simpl; [reflexivity | now rewrite IH]. Qed.

End ReportFacts.

(** X4.  [formatDiff] returns the single line [No changes detected.]
    exactly when [hasChanges] is false; otherwise the report begins with the
    summary line, followed by a line break.  The unchanged elements never
    show in the report. *)
Theorem formatDiff_no_changes (d : DiffResult) :
  (formatDiff d = "No changes detected." <-> hasChanges d = false) /\
  (hasChanges d = true ->
   exists rest, formatDiff d = summaryLine d ++ nl ++ rest) /\
  formatDiff d
  = formatDiff {| added := added d; removed := removed d;
                  modified := modified d; unchanged := [] |}.
Proof.
  assert (Hchanged : hasChanges d = true ->
                     exists rest, formatDiff d = summaryLine d ++ nl ++ rest).
  { intros H. destruct (ReportFacts.bucketLines_cons d H) as (x & l & Hl).
    unfold formatDiff. rewrite Hl. simpl.
    exists (joinLines (x :: l)). reflexivity. }
  split; [|split; [exact Hchanged | reflexivity]].
  split.
  - intros Hfmt. destruct (hasChanges d) eqn:E; [|reflexivity].
    destruct (Hchanged eq_refl) as (rest & Hrest).
    rewrite Hrest in Hfmt. unfold summaryLine in Hfmt. simpl in Hfmt.
    discriminate.
  - intros H. unfold formatDiff.
    rewrite (ReportFacts.bucketLines_nil d H). reflexivity.
Qed.

Lemma formatDiff_no_changes_witness :
  formatDiff (compare Samples.oldBatch Samples.sameLocatorBatch)
  = "No changes detected.".
Proof.
  apply (proj2 (proj1 (formatDiff_no_changes
                         (compare Samples.oldBatch
                            Samples.sameLocatorBatch)))).
  reflexivity.
Defined.

(** X5.  The refactor plan holds one action per added, removed and modified
    element, in this order and under the identifier of the element, and none
    for an unchanged element: the number of actions is the sum of the three
    summary counts, and the plan has no action exactly when [hasChanges] is
    false. *)
Theorem toRefactorPlan_actions (now : string) (d : DiffResult)
    (pageName_ : string) :
  List.length (actions (toRefactorPlan now d pageName_))
  = summaryAdded (summary (toRefactorPlan now d pageName_))
    + summaryRemoved (summary (toRefactorPlan now d pageName_))
    + summaryModified (summary (toRefactorPlan now d pageName_)) /\
  (actions (toRefactorPlan now d pageName_) = [] <-> hasChanges d = false) /\
  map actionType (actions (toRefactorPlan now d pageName_))
  = (repeat add (List.length (added d))
     ++ repeat remove (List.length (removed d))
     ++ repeat modify (List.length (modified d)))%list /\
  map elementName (actions (toRefactorPlan now d pageName_))
  = (addedIds d ++ removedIds d ++ modifiedIds d)%list.
Proof.
  unfold toRefactorPlan. simpl.
  split; [|split; [|split]].
  - rewrite !length_app, !length_map. lia.
  - unfold hasChanges.
    destruct (added d), (removed d), (modified d); simpl;
      split; intros H; try reflexivity; discriminate.
  - rewrite !map_app, !map_map. simpl.
    now rewrite !ReportFacts.map_const_repeat.
  - rewrite !map_app, !map_map. reflexivity.
Qed.

(* ================================================================= *)
(** ** The resolvers: first match, strategy tags, ignore rules *)

Module ResolverMore.

Lemma tryGenerateLocator_tag info elementType role_ locatorType_ r :
  tryGenerateLocator info elementType role_ locatorType_ = Some r ->
  resultType r = locatorType_.
Proof.
  unfold tryGenerateLocator, roleLocator. intros H.
  repeat match type of H with
         | context [match ?x with _ => _ end] => destruct x
         end;
    try discriminate; injection H as <-; reflexivity.
Qed.

Lemma firstLocator_first_match info elementType role_ before lt after r :
  Forall (fun l => tryGenerateLocator info elementType role_ l = None)
    before ->
  tryGenerateLocator info elementType role_ lt = Some r ->
  firstLocator info elementType role_ (before ++ lt :: after) = Some r.
Proof.
  intros Hbefore Hlt. induction Hbefore as [|l before Hl _ IH]; simpl.
  - now rewrite Hlt.
  - now rewrite Hl.
Qed.

Lemma firstLocator_Some info elementType role_ priority r :
  firstLocator info elementType role_ priority = Some r ->
  exists lt, In lt priority /\
             tryGenerateLocator info elementType role_ lt = Some r.
Proof.
  induction priority as [|l rest IH]; simpl; [discriminate|].
  destruct (tryGenerateLocator info elementType role_ l) eqn:E.
  - intros [= <-]. exists l. auto.
  - intros H. destruct (IH H) as (lt & Hin & Hlt). exists lt. auto.
Qed.

Lemma append_nonempty_r (s t : string) : t <> "" -> s ++ t <> "".
Proof. destruct s; simpl; [auto | discriminate]. Qed.

Lemma generateElementName_nonempty cfg info elementType :
  generateElementName cfg info elementType <> "".
Proof.
  unfold generateElementName. apply append_nonempty_r.
  destruct (nonEmpty (suffixes (namingRules cfg) elementType)) eqn:E.
  - now apply ResolverFacts.nonEmpty_true.
  - discriminate.
Qed.

Lemma prefix_app (p s : string) : prefix p (p ++ s) = true.
Proof.
  induction p as [|c p IH]; simpl; [now destruct s|].
  destruct (ascii_dec c c); [exact IH | contradiction].
Qed.

Lemma includes_prefix (pat s : string) :
  prefix pat s = true -> includes pat s = true.
Proof. intros H. destruct s; cbn [includes]; now rewrite H. Qed.

Lemma includes_app (pre pat post : string) :
  includes pat (pre ++ pat ++ post) = true.
Proof.
  induction pre as [|c pre IH]; simpl.
  - apply includes_prefix, prefix_app.
  - rewrite IH. apply orb_true_r.
Qed.

Lemma generateLocator_nonempty cfg info elementType :
  resultCode (generateLocator cfg info elementType) <> "".
Proof.
  unfold generateLocator.
  destruct (firstLocator info elementType (roleMap elementType)
              (locatorPriority cfg)) eqn:E.
  - eapply ResolverFacts.firstLocator_nonempty; eauto.
  - simpl. discriminate.
Qed.

End ResolverMore.

(** X6.  [generateLocator] is a first match: when the priority list is
    [before ++ lt :: after], no strategy of [before] applies and [lt]
    applies, the result is the one [lt] produces, and its strategy tag is
    [lt], whatever [after] holds. *)
Theorem generateLocator_first_match (cfg : GeneratorConfig)
    (info : ElementInfo) (elementType : ElementType)
    (before after : list LocatorType) (lt : LocatorType)
    (r : LocatorResult) :
  locatorPriority cfg = (before ++ lt :: after)%list ->
  Forall (fun l => tryGenerateLocator info elementType
                     (roleMap elementType) l = None) before ->
  tryGenerateLocator info elementType (roleMap elementType) lt = Some r ->
  generateLocator cfg info elementType = r /\ resultType r = lt.
Proof.
  intros Hprio Hbefore Hlt. unfold generateLocator. rewrite Hprio.
  rewrite (ResolverMore.firstLocator_first_match _ _ _ _ _ _ _ Hbefore Hlt).
  split; [reflexivity|]. eapply ResolverMore.tryGenerateLocator_tag; eauto.
Qed.

(** With the label strategy first the label wins over the aria-label. *)
Lemma generateLocator_first_match_witness :
  generateLocator ExtraSamples.labelFirstConfig ExtraSamples.labelledButton
    button
  = {| resultCode := "getByLabel('Send the form')";
       resultType := getByLabel |} /\
  resultType {| resultCode := "getByLabel('Send the form')";
                resultType := getByLabel |} = getByLabel.
Proof.
  apply (generateLocator_first_match ExtraSamples.labelFirstConfig
           ExtraSamples.labelledButton button [] [getByRole] getByLabel).
  - reflexivity.
  - constructor.
  - reflexivity.
Defined.

(** X7.  The result of [generateLocator] is either the result of a strategy
    of the configured priority list, tagged with that strategy, or the bare
    tag-name selector, and the latter only when no strategy of the list
    applies. *)
Theorem generateLocator_origin (cfg : GeneratorConfig) (info : ElementInfo)
    (elementType : ElementType) :
  (exists lt,
      In lt (locatorPriority cfg) /\
      tryGenerateLocator info elementType (roleMap elementType) lt
      = Some (generateLocator cfg info elementType) /\
      resultType (generateLocator cfg info elementType) = lt) \/
  (Forall (fun l => tryGenerateLocator info elementType
                      (roleMap elementType) l = None)
     (locatorPriority cfg) /\
   generateLocator cfg info elementType = tagFallback info).
Proof.
  unfold generateLocator.
  destruct (firstLocator info elementType (roleMap elementType)
              (locatorPriority cfg)) as [r|] eqn:E.
  - left. destruct (ResolverMore.firstLocator_Some _ _ _ _ _ E)
      as (lt & Hin & Hlt).
    exists lt. split; [exact Hin|]. split; [exact Hlt|].
    eapply ResolverMore.tryGenerateLocator_tag; eauto.
  - right. split; [|reflexivity].
    now apply ResolverFacts.firstLocator_None.
Qed.

(** X8.  [createAnalyzedElement] never returns [null]: the identifier ends
    with a non-empty suffix and the locator expression is never empty, so
    the guard of its early return never holds. *)
Theorem createAnalyzedElement_never_null (cfg : GeneratorConfig)
    (info : ElementInfo) (elementType_ : ElementType) :
  createAnalyzedElement cfg info elementType_
  = Some {| name := generateElementName cfg info elementType_;
            locatorCode := resultCode (generateLocator cfg info elementType_);
            locatorType := resultType (generateLocator cfg info elementType_);
            elementType := elementType_;
            originalInfo := info |} /\
  generateElementName cfg info elementType_ <> "".
Proof.
  split; [|apply ResolverMore.generateElementName_nonempty].
  unfold createAnalyzedElement.
  rewrite (proj2 (ResolverFacts.nonEmpty_true _)
             (ResolverMore.generateElementName_nonempty cfg info elementType_)).
  rewrite (proj2 (ResolverFacts.nonEmpty_true _)
             (ResolverMore.generateLocator_nonempty cfg info elementType_)).
  reflexivity.
Qed.

(** X9.  With empty ignore lists, as in the default configuration, no
    element is ignored; and whatever the lists hold, an element without id,
    class and role (absent or empty) is not ignored. *)
Theorem shouldIgnoreElement_false (cfg : GeneratorConfig)
    (info : ElementInfo) :
  (ignoreIds (ignoreRules cfg) = [] ->
   ignoreClasses (ignoreRules cfg) = [] ->
   ignoreRoles (ignoreRules cfg) = [] ->
   shouldIgnoreElement cfg info = false) /\
  (truthy (idAttr info) = false ->
   truthy (className info) = false ->
   truthy (role info) = false ->
   shouldIgnoreElement cfg info = false).
Proof.
  split.
  - intros Hi Hc Hr. unfold shouldIgnoreElement. rewrite Hi, Hc, Hr. simpl.
    destruct (truthyValue (idAttr info)), (truthyValue (className info)),
      (truthyValue (role info)); reflexivity.
  - intros Hi Hc Hr. unfold shouldIgnoreElement.
    rewrite (proj2 (ResolverFacts.truthyValue_None _) Hi).
    rewrite (proj2 (ResolverFacts.truthyValue_None _) Hc).
    rewrite (proj2 (ResolverFacts.truthyValue_None _) Hr).
    reflexivity.
Qed.

Lemma shouldIgnoreElement_false_witness :
  shouldIgnoreElement DEFAULT_CONFIG (ExtraSamples.withId "cookie-banner")
  = false.
Proof.
  apply (proj1 (shouldIgnoreElement_false DEFAULT_CONFIG
                  (ExtraSamples.withId "cookie-banner"))); reflexivity.
Defined.

(** X10.  The id and class rules match substrings: an element is ignored as
    soon as one configured id pattern occurs anywhere in its non-empty id,
    or, failing that, as soon as one configured class pattern occurs anywhere
    in its non-empty class string.  An empty pattern occurs in every string,
    so it makes the rule ignore every element that has the attribute. *)
Theorem shouldIgnoreElement_substring (cfg : GeneratorConfig)
    (info : ElementInfo) (pre pat post : string) :
  pre ++ pat ++ post <> "" ->
  (In pat (ignoreIds (ignoreRules cfg)) ->
   idAttr info = Some (pre ++ pat ++ post) ->
   shouldIgnoreElement cfg info = true) /\
  (In pat (ignoreClasses (ignoreRules cfg)) ->
   className info = Some (pre ++ pat ++ post) ->
   shouldIgnoreElement cfg info = true).
Proof.
  intros Hne.
  assert (Hex : forall l, In pat l ->
                 existsb (fun p => includes p (pre ++ pat ++ post)) l = true).
  { intros l Hin. apply existsb_exists. exists pat.
    split; [exact Hin | apply ResolverMore.includes_app]. }
  split; intros Hin Hattr; unfold shouldIgnoreElement.
  - rewrite (proj2 (ResolverFacts.truthyValue_Some _ _) (conj Hattr Hne)).
    now rewrite (Hex _ Hin).
  - rewrite (proj2 (ResolverFacts.truthyValue_Some (className info) _)
               (conj Hattr Hne)).
    rewrite (Hex _ Hin).
    now destruct (match truthyValue (idAttr info) with
                  | Some i => existsb (fun ignoreId => includes ignoreId i)
                                (ignoreIds (ignoreRules cfg))
                  | None => false
                  end).
Qed.

(** The empty pattern ignores an element whatever its id. *)
Lemma shouldIgnoreElement_substring_witness :
  shouldIgnoreElement ExtraSamples.emptyIdRuleConfig
    (ExtraSamples.withId "email") = true.
Proof.
  apply (proj1 (shouldIgnoreElement_substring ExtraSamples.emptyIdRuleConfig
                  (ExtraSamples.withId "email") "email" "" "" ltac:(discriminate))).
  - simpl. now left.
  - reflexivity.
Defined.

(* ================================================================= *)
(** ** Naming: the characters of an identifier *)

Module NamingFacts.

Ltac ascii_cases c :=
  destruct c as [[] [] [] [] [] [] [] []]; try reflexivity; try discriminate.

Lemma isAlnum_lowerChar c : isAlnum c = true -> isAlnum (lowerChar c) = true.
Proof. ascii_cases c. Qed.

Lemma isAlnum_upperChar c : isAlnum c = true -> isAlnum (upperChar c) = true.
Proof. ascii_cases c. Qed.


Lemma allChars_app p (a b : string) :
  allChars p (a ++ b) = allChars p a && allChars p b.
Proof.
  induction a as [|c a IH]; simpl; [reflexivity|].
  now rewrite IH, andb_assoc.
Qed.

Lemma allChars_mapChars (p q : ascii -> bool) (f : ascii -> ascii) s :
  (forall c, p c = true -> q (f c) = true) ->
  allChars p s = true -> allChars q (mapChars f s) = true.
Proof.
  intros Hf. induction s as [|c s IH]; simpl; [reflexivity|].
  intros H. apply andb_true_iff in H. destruct H as (Hc & Hs).
  now rewrite (Hf c Hc), IH.
Qed.

Lemma allChars_true s : allChars (fun _ => true) s = true.
Proof. induction s; simpl; auto. Qed.

Lemma replaceNonWord_chars s :
  allChars (fun c => isAlnum c || isWhiteSpace c) (replaceNonWord s) = true.
Proof.
  unfold replaceNonWord.
  apply (allChars_mapChars (fun _ => true)); [|apply allChars_true].
  intros c _. destruct (isAlnum c || isWhiteSpace c) eqn:E;
    [exact E | reflexivity].
Qed.

Lemma splitWs_alnum s : forall cur inWs,
  allChars isAlnum cur = true ->
  allChars (fun c => isAlnum c || isWhiteSpace c) s = true ->
  Forall (fun w => allChars isAlnum w = true) (splitWs cur inWs s).
Proof.
  induction s as [|c s IH]; intros cur inWs Hcur Hs; simpl.
  - now constructor.
  - simpl in Hs. apply andb_true_iff in Hs. destruct Hs as (Hc & Hs).
    destruct (isWhiteSpace c) eqn:Ews.
    + destruct inWs; [|constructor; [exact Hcur|]]; now apply IH.
    + apply IH; [|exact Hs]. rewrite allChars_app, Hcur. simpl.
      rewrite orb_false_r in Hc. now rewrite Hc.
Qed.

Lemma toLowerCase_alnum w :
  allChars isAlnum w = true -> allChars isAlnum (toLowerCase w) = true.
Proof. apply allChars_mapChars, isAlnum_lowerChar. Qed.

Lemma toUpperCase_alnum w :
  allChars isAlnum w = true -> allChars isAlnum (toUpperCase w) = true.
Proof. apply allChars_mapChars, isAlnum_upperChar. Qed.

Lemma capitalize_alnum w :
  allChars isAlnum w = true ->
  allChars isAlnum (toUpperCase (charAt0 w) ++ slice1 w) = true.
Proof.
  destruct w as [|c w]; simpl; [reflexivity|].
  intros H. apply andb_true_iff in H. destruct H as (Hc & Hw).
  now rewrite (isAlnum_upperChar c Hc).
Qed.

Lemma camelWords_alnum words : forall first,
  Forall (fun w => allChars isAlnum w = true) words ->
  Forall (fun w => allChars isAlnum w = true) (camelWords first words).
Proof.
  induction words as [|w words IH]; intros first Hall; simpl;
    [constructor|].
  inversion Hall as [|? ? Hw Hwords]; subst.
  constructor; [|now apply IH].
  destruct first; [now apply toLowerCase_alnum|].
  now apply capitalize_alnum, toLowerCase_alnum.
Qed.

Lemma join_cons (x : string) (l : list string) : join (x :: l) = x ++ join l.
Proof.
  unfold join. destruct l; simpl; [|reflexivity].
  induction x as [|c x IH]; simpl; [reflexivity | now rewrite <- IH].
Qed.

Lemma join_alnum (l : list string) :
  Forall (fun w => allChars isAlnum w = true) l ->
  allChars isAlnum (join l) = true.
Proof.
  induction 1 as [|w l Hw _ IH]; [reflexivity|].
  now rewrite join_cons, allChars_app, Hw, IH.
Qed.

Lemma Forall_filter {A} (P : A -> Prop) (f : A -> bool) (l : list A) :
  Forall P l -> Forall P (filter f l).
Proof.
  induction 1 as [|x l Hx _ IH]; simpl; [constructor|].
  destruct (f x); [now constructor | exact IH].
Qed.

Lemma toCamelCase_chars s : allChars isAlnum (toCamelCase s) = true.
Proof.
  unfold toCamelCase, splitWhitespace.
  apply join_alnum, camelWords_alnum, Forall_filter, splitWs_alnum;
    [reflexivity | apply replaceNonWord_chars].
Qed.




End NamingFacts.

(** X11.  The camel-case and Pascal-case forms of any string hold letters
    and digits only. *)
Theorem toCamelCase_alnum (s : string) :
  allChars isAlnum (toCamelCase s) = true /\
  allChars isAlnum (toPascalCase s) = true.
Proof.
  split; [apply NamingFacts.toCamelCase_chars|].
  unfold toPascalCase.
  apply NamingFacts.capitalize_alnum, NamingFacts.toCamelCase_chars.
Qed.


(** X13.  When names are camel-cased and the configured suffixes hold
    letters and digits only, as in the default configuration, every
    identifier [generateElementName] returns holds letters and digits
    only. *)
Theorem generateElementName_alnum (cfg : GeneratorConfig)
    (info : ElementInfo) (elementType : ElementType) :
  useCamelCase (namingRules cfg) = true ->
  (forall t, allChars isAlnum (suffixes (namingRules cfg) t) = true) ->
  allChars isAlnum (generateElementName cfg info elementType) = true.
Proof.
  intros Hcamel Hsuffix. unfold generateElementName. rewrite Hcamel.
  rewrite NamingFacts.allChars_app, NamingFacts.toCamelCase_chars. simpl.
  destruct (nonEmpty (suffixes (namingRules cfg) elementType));
    [apply Hsuffix | reflexivity].
Qed.

Lemma generateElementName_alnum_witness :
  allChars isAlnum
    (generateElementName DEFAULT_CONFIG ExtraSamples.labelledButton button)
  = true.
Proof.
  apply (generateElementName_alnum DEFAULT_CONFIG
           ExtraSamples.labelledButton button).
  - reflexivity.
  - intros t. destruct t; reflexivity.
Defined.

(* ================================================================= *)
(** ** Deduplication of a batch without collision *)

Module DedupMore.
Import JsMap JsMapFacts.

Lemma dedupLoop_distinct (elements : list AnalyzedElement) :
  forall seen : JsMap.t AnalyzedElement,
    NoDup (keys seen ++ map name elements) ->
    dedupLoop seen elements
    = Some (seen ++ map (fun e => (name e, e)) elements)%list.
Proof.
  induction elements as [|e rest IH]; intros seen Hnd; simpl.
  - now rewrite app_nil_r.
  - assert (Hfresh : has seen (name e) = false).
    { apply has_false_iff. intros Hin.
      apply NoDup_remove_2 in Hnd. apply Hnd.
      apply in_or_app. now left. }
    unfold dedupStep. rewrite Hfresh. cbn [negb].
    rewrite set_absent by exact Hfresh.
    rewrite IH.
    + now rewrite <- app_assoc.
    + unfold keys in *. rewrite map_app, <- app_assoc. exact Hnd.
Qed.

Lemma deduplicateElements_distinct (elements : list AnalyzedElement) :
  NoDup (map name elements) -> deduplicateElements elements = Some elements.
Proof.
  intros Hnd. unfold deduplicateElements.
  rewrite (dedupLoop_distinct elements empty) by exact Hnd. simpl.
  unfold values. rewrite map_map. simpl. now rewrite map_id.
Qed.

Lemma deduplicateElements_NoDup (elements outs : list AnalyzedElement) :
  deduplicateElements elements = Some outs -> NoDup (map name outs).
Proof.
  unfold deduplicateElements.
  destruct (DedupFacts.dedupLoop_spec elements empty)
    as (outs' & Hloop & Hnd & _); [constructor|].
  rewrite Hloop. simpl.
  assert (Hvalues : values (map (fun e => (name e, e)) outs') = outs').
  { unfold values. rewrite map_map. simpl. apply map_id. }
  rewrite Hvalues. intros [= <-]. exact Hnd.
Qed.

End DedupMore.

(** X14.  A batch whose identifiers are pairwise distinct goes through
    deduplication unchanged: same elements, same order, no renaming. *)
Theorem deduplicateElements_identity (elements : list AnalyzedElement) :
  NoDup (map name elements) -> deduplicateElements elements = Some elements.
Proof. apply DedupMore.deduplicateElements_distinct. Qed.

Lemma deduplicateElements_identity_witness :
  deduplicateElements [Samples.emailB; Samples.phoneC]
  = Some [Samples.emailB; Samples.phoneC].
Proof.
  apply (deduplicateElements_identity [Samples.emailB; Samples.phoneC]).
  repeat constructor; simpl; intuition discriminate.
Defined.

(** X15.  Deduplication is idempotent: deduplicating its own result returns
    that result. *)
Theorem deduplicateElements_idempotent (elements outs : list AnalyzedElement) :
  deduplicateElements elements = Some outs ->
  deduplicateElements outs = Some outs.
Proof.
  intros H. apply DedupMore.deduplicateElements_distinct.
  eapply DedupMore.deduplicateElements_NoDup; eauto.
Qed.

Lemma deduplicateElements_idempotent_witness :
  deduplicateElements
    [DedupSamples.a1; withName DedupSamples.a2 "a2";
     withName DedupSamples.b "a22"]
  = Some [DedupSamples.a1; withName DedupSamples.a2 "a2";
          withName DedupSamples.b "a22"].
Proof.
  apply (deduplicateElements_idempotent
           [DedupSamples.a1; DedupSamples.a2; DedupSamples.b]).
  reflexivity.
Defined.

(* ================================================================= *)
(** ** Helper methods *)

Module HelperFacts.

Lemma append_empty (a b : string) : a ++ b = "" <-> a = "" /\ b = "".
Proof.
  destruct a; simpl; split.
  - auto.
  - now intros [_ ->].
  - discriminate.
  - intros [H _]. discriminate.
Qed.

Lemma join_map_empty {A} (f : A -> string) (l : list A) :
  (forall x, f x <> "") -> (join (map f l) = "" <-> l = []).
Proof.
  intros Hf. destruct l as [|x l]; [tauto|].
  simpl map. rewrite NamingFacts.join_cons, append_empty.
  split; [intros [H _]; now apply Hf in H | discriminate].
Qed.

Lemma filter_nil {A} (p : A -> bool) (l : list A) :
  filter p l = [] <-> Forall (fun x => p x = false) l.
Proof.
  induction l as [|x l IH]; simpl.
  - split; [constructor | reflexivity].
  - destruct (p x) eqn:E.
    + split; [discriminate | intros H; inversion H; congruence].
    + rewrite IH. split; [now constructor | intros H; now inversion H].
Qed.

Lemma substring_prefix (p s : string) :
  substring 0 (String.length p) (p ++ s) = p.
Proof.
  induction p as [|c p IH]; simpl; [now destruct s | now rewrite IH].
Qed.

Lemma length_append (p s : string) :
  String.length (p ++ s) = String.length p + String.length s.
Proof. induction p as [|c p IH]; simpl; [reflexivity | now rewrite IH]. Qed.

Lemma endsWith_append (suffix p : string) : endsWith suffix (p ++ suffix) = true.
Proof.
  induction p as [|c p IH]; simpl.
  - destruct suffix; cbn [append endsWith]; now rewrite String.eqb_refl.
  - rewrite IH. apply orb_true_r.
Qed.

Lemma endsWith_true (suffix s : string) :
  endsWith suffix s = true -> exists p, s = p ++ suffix.
Proof.
  induction s as [|c s IH]; cbn [endsWith].
  - rewrite orb_false_r. intros H. apply String.eqb_eq in H.
    exists "". now subst.
  - intros H. apply orb_true_iff in H. destruct H as [H|H].
    + apply String.eqb_eq in H. exists "". now subst.
    + destruct (IH H) as (p & ->). now exists (String c p).
Qed.

(** [name.replace(/suffix$/, '')] removes the suffix of a name that ends
    with it. *)
Lemma stripSuffix_append (suffix p : string) :
  stripSuffix suffix (p ++ suffix) = p.
Proof.
  unfold stripSuffix. rewrite endsWith_append, length_append.
  replace (String.length p + String.length suffix - String.length suffix)
    with (String.length p) by lia.
  apply substring_prefix.
Qed.

Lemma stripSuffix_other (suffix s : string) :
  (forall p, s <> p ++ suffix) -> stripSuffix suffix s = s.
Proof.
  intros H. unfold stripSuffix.
  destruct (endsWith suffix s) eqn:E; [|reflexivity].
  destruct (endsWith_true _ _ E) as (p & Hp). now apply H in Hp.
Qed.

End HelperFacts.

(** X16.  No helper method is generated exactly when every element is a
    radio, a heading or of the other category: each button, input, textarea,
    select, checkbox and link contributes a method, and nothing else does. *)
Theorem generateHelperMethods_empty (elements : list AnalyzedElement) :
  generateHelperMethods elements = "" <->
  Forall (fun e => isType radio e || isType heading e || isType other e
                   = true) elements.
Proof.
  unfold generateHelperMethods.
  rewrite !HelperFacts.append_empty.
  rewrite !HelperFacts.join_map_empty
    by (intros x; unfold buttonMethod, inputMethod, selectMethod,
          checkboxMethods, linkMethod, clickMethod; simpl; discriminate).
  rewrite !HelperFacts.filter_nil, !Forall_forall.
  split.
  - intros (Hb & Hi & Hs & Hc & Hl) e Hin.
    specialize (Hb e Hin). specialize (Hi e Hin). specialize (Hs e Hin).
    specialize (Hc e Hin). specialize (Hl e Hin).
    unfold isType in *. destruct (elementType e); simpl in *; congruence.
  - intros H.
    repeat split; intros e Hin; specialize (H e Hin);
      unfold isType in *; destruct (elementType e); simpl in *; congruence.
Qed.

(** X17.  The method of a button whose identifier is [p] followed by
    [Button] is named [click] followed by the Pascal-case form of [p]; when
    the identifier does not end with [Button], as after a renaming by
    deduplication, the whole identifier is Pascal-cased.  Likewise for a
    link, whose method name also ends with [Link]. *)
Theorem helper_method_names (e : AnalyzedElement) (p : string) :
  (name e = p ++ "Button" ->
   buttonMethod e = clickMethod ("click" ++ toPascalCase p) (name e)) /\
  ((forall q, name e <> q ++ "Button") ->
   buttonMethod e = clickMethod ("click" ++ toPascalCase (name e)) (name e)) /\
  (name e = p ++ "Link" ->
   linkMethod e
   = clickMethod ("click" ++ toPascalCase p ++ "Link") (name e)).
Proof.
  unfold buttonMethod, linkMethod. split; [|split].
  - intros H. rewrite H at 1. now rewrite HelperFacts.stripSuffix_append.
  - intros H. now rewrite HelperFacts.stripSuffix_other.
  - intros H. rewrite H at 1. now rewrite HelperFacts.stripSuffix_append.
Qed.

Lemma helper_method_names_witness :
  buttonMethod TemplateSamples.submit
  = clickMethod ("click" ++ toPascalCase "submit")
      (name TemplateSamples.submit).
Proof.
  apply (proj1 (helper_method_names TemplateSamples.submit "submit")).
  reflexivity.
Defined.

(* ================================================================= *)
(** ** Escaping: what holds of every escaped string *)

Module EscapeMore.

Lemma trimStart_starts s : startsWithWhiteSpace (trimStart s) = false.
Proof.
  induction s as [|c s IH]; simpl; [reflexivity|].
  destruct (isWhiteSpace c) eqn:E; [exact IH | simpl; exact E].
Qed.

Lemma trimEnd_starts s :
  startsWithWhiteSpace s = false -> startsWithWhiteSpace (trimEnd s) = false.
Proof.
  destruct s as [|c s]; simpl; [reflexivity|].
  intros H. rewrite H. simpl. exact H.
Qed.

Lemma trimEnd_ends s : endsWithWhiteSpace (trimEnd s) = false.
Proof.
  induction s as [|c s IH]; simpl; [reflexivity|].
  destruct (trimEnd s) as [|x t] eqn:E.
  - simpl. destruct (isWhiteSpace c) eqn:Ews; simpl; [reflexivity | exact Ews].
  - rewrite andb_false_r. exact IH.
Qed.

Lemma replaceAllChar_absent c by_ s :
  hasChar c s = false -> replaceAllChar c by_ s = s.
Proof.
  induction s as [|x s IH]; simpl; [reflexivity|].
  intros H. apply orb_false_iff in H. destruct H as (Hx & Hs).
  now rewrite Hx, IH.
Qed.

Lemma trimStart_id s : startsWithWhiteSpace s = false -> trimStart s = s.
Proof. destruct s as [|c s]; simpl; [reflexivity | now intros ->]. Qed.

Lemma trimEnd_id s : endsWithWhiteSpace s = false -> trimEnd s = s.
Proof.
  induction s as [|c s IH]; [reflexivity|].
  cbn [endsWithWhiteSpace trimEnd]. destruct s as [|x t].
  - intros H. simpl. now rewrite H.
  - intros H. rewrite (IH H). now rewrite andb_false_r.
Qed.

End EscapeMore.

(** X18.  Every escaped string is free of line feeds, has a backslash
    immediately before each of its single quotes, and neither begins nor
    ends with white space. *)
Theorem escapeString_shape (s : string) :
  hasChar LF (escapeString s) = false /\
  quotesFollowBackslash false (escapeString s) = true /\
  startsWithWhiteSpace (escapeString s) = false /\
  endsWithWhiteSpace (escapeString s) = false.
Proof.
  split; [apply EscapeFacts.escapeString_no_line_feed|].
  split; [apply EscapeFacts.escapeString_quotes_follow_backslash|].
  unfold escapeString, trim. split.
  - apply EscapeMore.trimEnd_starts, EscapeMore.trimStart_starts.
  - apply EscapeMore.trimEnd_ends.
Qed.

(** X19.  On an input that holds no backslash the escaped string holds no
    raw single quote: every quote is escaped by the backslash put before
    it. *)
Theorem escapeString_escapes_quotes (s : string) :
  hasChar BACKSLASH s = false -> hasRawQuote (escapeString s) = false.
Proof. apply EscapeFacts.escapeString_safe_without_backslash. Qed.

Lemma escapeString_escapes_quotes_witness :
  hasRawQuote (escapeString ("it's" ++ nl ++ "fine")) = false.
Proof.
  apply (escapeString_escapes_quotes ("it's" ++ nl ++ "fine")).
  reflexivity.
Defined.

(** X20.  [escapeString] leaves a string as it is when the string holds no
    single quote and no line feed and neither begins nor ends with white
    space. *)
Theorem escapeString_clean (s : string) :
  hasChar QUOTE s = false ->
  hasChar LF s = false ->
  startsWithWhiteSpace s = false ->
  endsWithWhiteSpace s = false ->
  escapeString s = s.
Proof.
  intros Hq Hlf Hstart Hend. unfold escapeString, trim.
  rewrite (EscapeMore.replaceAllChar_absent QUOTE _ s Hq).
  rewrite (EscapeMore.replaceAllChar_absent LF _ s Hlf).
  rewrite (EscapeMore.trimStart_id s Hstart).
  apply EscapeMore.trimEnd_id, Hend.
Qed.

Lemma escapeString_clean_witness : escapeString "Log in" = "Log in".
Proof. apply (escapeString_clean "Log in"); reflexivity. Defined.

(* ================================================================= *)
(** ** The command line *)

Module CliFacts.

(** What the loop keeps: the command is one of the two commands, and every
    positional argument was there before or is an argument without a leading
    dash. *)
Lemma parseLoop_invariant (n : nat) :
  forall (args : list string) (st : ArgState),
    List.length args <= n ->
    (CliNotions.commandOk (stCommand st) -> CliNotions.commandOk (stCommand (parseLoop args st))) /\
    (forall u, In u (positionalArgs (parseLoop args st)) ->
               In u (positionalArgs st) \/
               (In u args /\ startsWith "-" u = false)).
Proof.
  induction n as [|n IH]; intros args st Hlen.
  - destruct args; [|simpl in Hlen; lia]. simpl. auto.
  - destruct args as [|arg rest]; [simpl; auto|].
    simpl in Hlen.
    assert (Hgen : forall tail st',
      List.length tail <= n -> incl tail (arg :: rest) ->
      (CliNotions.commandOk (stCommand st) -> CliNotions.commandOk (stCommand st')) ->
      positionalArgs st' = positionalArgs st ->
      (CliNotions.commandOk (stCommand st) ->
       CliNotions.commandOk (stCommand (parseLoop tail st'))) /\
      (forall u, In u (positionalArgs (parseLoop tail st')) ->
                 In u (positionalArgs st) \/
                 (In u (arg :: rest) /\ startsWith "-" u = false))).
    { intros tail st' Hl Hincl Hc Hp. destruct (IH tail st' Hl) as (H1 & H2).
      rewrite Hp in H2. split; [auto|].
      intros u Hu. destruct (H2 u Hu) as [H|[H H']]; [now left|].
      right. split; [now apply Hincl | exact H']. }
    assert (Hrest : List.length rest <= n) by lia.
    assert (Hincl : incl rest (arg :: rest)) by apply incl_tl, incl_refl.
    cbn [parseLoop].
    destruct ((arg =? "--screenshot") || (arg =? "-s"));
      [now apply Hgen|].
    destruct ((arg =? "--screenshot-path") && truthyNext rest).
    { destruct rest as [|next rest']; [simpl; auto|].
      apply Hgen; [simpl in Hrest; lia | | auto | reflexivity].
      intros u Hu. now right; right. }
    destruct ((arg =? "--json") || (arg =? "-j")); [now apply Hgen|].
    destruct ((arg =? "--verbose") || (arg =? "-v")); [now apply Hgen|].
    destruct ((arg =? "--metadata") || (arg =? "-m")).
    { destruct rest as [|next rest']; [simpl; auto|].
      apply Hgen; [simpl in Hrest; lia | | auto | reflexivity].
      intros u Hu. now right; right. }
    destruct ((arg =? "--compare") || (arg =? "-c")).
    { destruct rest as [|next rest'].
      - simpl. split; [intros _; now right | auto].
      - apply Hgen; [simpl in Hrest; lia | | | reflexivity].
        + intros u Hu. now right; right.
        + intros _. now right. }
    destruct ((arg =? "generate") || (arg =? "compare") || (arg =? "diff"))
      eqn:Eword.
    { apply Hgen; [exact Hrest | exact Hincl | | reflexivity].
      intros _. cbn [stCommand].
      destruct (String.eqb_spec arg "diff"); [now right|].
      destruct (String.eqb_spec arg "generate"); [now left|].
      destruct (String.eqb_spec arg "compare"); [now right|].
      simpl in Eword. discriminate. }
    destruct (negb (startsWith "-" arg)) eqn:Edash; [|now apply Hgen].
    destruct (IH rest
                {| stOptions := stOptions st;
                   stCommand := stCommand st;
                   stMetadataPath := stMetadataPath st;
                   stCompareWith := stCompareWith st;
                   positionalArgs := (positionalArgs st ++ [arg])%list |}
                Hrest) as (H1 & H2).
    split; [exact H1|].
    intros u Hu. destruct (H2 u Hu) as [H|[H H']].
    + cbn [positionalArgs] in H. apply in_app_or in H.
      destruct H as [H|[<-|[]]]; [now left|].
      right. split; [now left|]. now apply negb_true_iff in Edash.
    + right. split; [now right | exact H'].
Qed.

End CliFacts.

(** X21.  Whatever the arguments, [parseArgs] returns the command
    [generate] or [compare] ([diff] is turned into [compare]), and the url,
    the page name and the output path it returns are arguments that do not
    begin with a dash. *)
Theorem parseArgs_shape (args : list string) :
  (command (parseArgs args) = "generate" \/
   command (parseArgs args) = "compare") /\
  (forall u,
      cliUrl (parseArgs args) = Some u \/
      cliPageName (parseArgs args) = Some u \/
      outputPath (parseArgs args) = Some u ->
      In u args /\ startsWith "-" u = false).
Proof.
  destruct (CliFacts.parseLoop_invariant (List.length args) args
              initialArgState (le_n _)) as (Hcmd & Hpos).
  split.
  - apply Hcmd. now left.
  - intros u Hu. unfold parseArgs in Hu. cbn [cliUrl cliPageName outputPath] in Hu.
    assert (Hin : In u (positionalArgs (parseLoop args initialArgState))).
    { destruct ((stCommand (parseLoop args initialArgState) =? "generate")
                || (stCommand (parseLoop args initialArgState) =? "compare")).
      - destruct Hu as [H|[H|H]]; eapply nth_error_In; exact H.
      - destruct Hu as [H|[H|H]]; discriminate. }
    destruct (Hpos u Hin) as [[]|H]. exact H.
Qed.

Lemma parseArgs_shape_witness :
  In "Login" ["-c"; "old.json"; "https://example.test/"; "Login"] /\
  startsWith "-" "Login" = false.
Proof.
  apply (proj2 (parseArgs_shape
                  ["-c"; "old.json"; "https://example.test/"; "Login"])).
  right. left. reflexivity.
Defined.

(* ================================================================= *)
(** ** The differ on batches with repeated identifiers, and its symmetry *)

Module IndexFacts.
Import JsMap JsMapFacts.

Lemma find_app {A} (f : A -> bool) (l1 l2 : list A) :
  find f (l1 ++ l2)
  = match find f l1 with
    | Some x => Some x
    | None => find f l2
    end.
Proof.
  induction l1 as [|x l1 IH]; simpl; [reflexivity|].
  now destruct (f x).
Qed.

Lemma fold_set_get (els : list AnalyzedElement) :
  forall (m : JsMap.t AnalyzedElement) k,
    get (fold_left (fun m e => set m (fst e) (snd e))
           (map (fun e => (name e, e)) els) m) k
    = match find (fun e => name e =? k) (rev els) with
      | Some e => Some e
      | None => get m k
      end.
Proof.
  induction els as [|e els IH]; intros m k; simpl; [reflexivity|].
  rewrite IH, find_app, get_set. simpl.
  destruct (find (fun e0 => name e0 =? k) (rev els)); [reflexivity|].
  now destruct (name e =? k).
Qed.

Lemma hasChanges_true (d : DiffResult) :
  hasChanges d = true <->
  added d <> [] \/ removed d <> [] \/ modified d <> [].
Proof.
  unfold hasChanges.
  destruct (added d), (removed d), (modified d); simpl;
    split; intros H; try reflexivity; try discriminate;
    try (destruct H as [H|[H|H]]; congruence);
    try (left; discriminate);
    try (right; left; discriminate);
    try (right; right; discriminate).
Qed.

Lemma nil_iff_no_member {A} (l : list A) : l = [] <-> forall x, ~ In x l.
Proof.
  destruct l as [|x l]; split.
  - intros _ y [].
  - reflexivity.
  - discriminate.
  - intros H. exfalso. apply (H x). now left.
Qed.

End IndexFacts.

(** X22.  When several elements of a batch bear the same identifier, the
    differ sees the last of them only: the index built by [compare] maps an
    identifier to the last element of the batch that bears it, and to nothing
    when no element bears it. *)
Theorem indexByName_keeps_last (els : list AnalyzedElement) (k : string) :
  JsMap.get (indexByName els) k = find (fun e => name e =? k) (rev els).
Proof.
  unfold indexByName, JsMap.ofEntries.
  rewrite IndexFacts.fold_set_get. simpl.
  now destruct (find (fun e => name e =? k) (rev els)).
Qed.

(** X23.  Drift detection is symmetric: [hasChanges] gives the same answer
    for [compare A B] and for [compare B A]. *)
Theorem hasChanges_symmetric (A B : PageObjectMetadata) :
  hasChanges (compare A B) = hasChanges (compare B A).
Proof.
  assert (Hmod : forall X Y,
            modified (compare X Y) <> [] -> modified (compare Y X) <> []).
  { intros X Y Hne Hnil. apply Hne. apply IndexFacts.nil_iff_no_member.
    intros [o n] Hin. apply DiffFacts.compare_modified in Hin.
    destruct Hin as (k & HgY & HgX & Hd). simpl in *.
    rewrite IndexFacts.nil_iff_no_member in Hnil.
    apply (Hnil {| old := n; new := o |}).
    apply DiffFacts.compare_modified. exists k. simpl. auto. }
  assert (Hswap : forall X Y, added (compare X Y) = removed (compare Y X)).
  { intros X Y.
    now rewrite DiffFacts.compare_added, DiffFacts.compare_removed. }
  assert (Hdir : forall X Y,
            hasChanges (compare X Y) = true ->
            hasChanges (compare Y X) = true).
  { intros X Y H. apply IndexFacts.hasChanges_true in H.
    apply IndexFacts.hasChanges_true.
    destruct H as [H|[H|H]].
    - right. left. now rewrite <- Hswap.
    - left. now rewrite Hswap.
    - right. right. now apply Hmod. }
  destruct (hasChanges (compare A B)) eqn:EA,
           (hasChanges (compare B A)) eqn:EB; try reflexivity.
  - apply Hdir in EA. congruence.
  - apply Hdir in EB. congruence.
Qed.
